(** * A shallow embedding of the NES emulator core (Memory, CPU, PPU, loadRom)

    The JavaScript program keeps three global objects, [Memory], [CPU] and
    [PPU], and mutates them in place.  The embedding gathers them in one
    record, [Machine], and writes every JavaScript function as a computation
    in a state monad over that record, so that what a function touches (and
    what it leaves alone) is a theorem and not a typing accident.

    Numbers are [Z]; [&], [|], [^], [<<] and [>>] are [Z.land], [Z.lor],
    [Z.lxor], [Z.shiftl] and [Z.shiftr], which agree with JavaScript's 32-bit
    operators on every value the emulator produces (two's complement for the
    negative intermediate results of [SBC], [CMP] and [Relative]). *)

From Stdlib Require Import ZArith List Bool Lia String.
Import ListNotations.
Local Open Scope Z_scope.

(** ** Typed arrays *)

(** A [Uint8Array] of fixed length, indexed by [Z].  Every index the program
    uses on [Memory.data] is masked to 16 bits (14 bits for
    [Memory.ppuMemory]) before the access, so no access is out of range and a
    total function is an adequate model.  A store keeps the low 8 bits of the
    stored number, as the typed array does. *)
Module Uint8Array.
Definition t := Z -> Z.

Definition make : t := fun _ => 0.

Definition get (a : t) (i : Z) : Z := a i.

Definition set (a : t) (i v : Z) : t :=
  fun j => if j =? i then Z.land v 0xFF else a j.

(** Every cell holds a byte: the invariant of the array type. *)
Definition bytes (a : t) : Prop := forall i, 0 <= a i < 256.
End Uint8Array.

(** ** The three global objects *)

Module FlagsObj.
Record t := mk {
  BreakFlag : bool;
  CarryFlag : bool;
  DecimalModeFlag : bool;
  InterruptFlag : bool;
  NegativeFlag : bool;
  OverflowFlag : bool;
  ZeroFlag : bool
}.
End FlagsObj.

Module CPUObj.
Record t := mk {
  A : Z;
  X : Z;
  Y : Z;
  PC : Z;
  SP : Z;
  Flags : FlagsObj.t
}.
End CPUObj.

Module MemoryObj.
Record t := mk {
  data : Uint8Array.t;       (* new Uint8Array(0x10000) *)
  ppuMemory : Uint8Array.t   (* new Uint8Array(0x4000) *)
}.
End MemoryObj.

Module PPUObj.
Record t := mk {
  ctrl : Z;
  mask : Z;
  status : Z;
  oamAddr : Z;
  oamData : Z;
  scroll : Z;
  addr : Z;
  data : Z;
  currentScanline : Z
}.
End PPUObj.

Record Machine := mkMachine {
  mem : MemoryObj.t;
  cpu : CPUObj.t;
  ppu : PPUObj.t
}.

(** ** The state monad the functions run in *)

Definition M (R : Type) : Type := Machine -> R * Machine.

Definition ret {R} (r : R) : M R := fun s => (r, s).

Definition bind {R S} (m : M R) (k : R -> M S) : M S :=
  fun s => let (r, s') := m s in k r s'.

Definition gets {R} (f : Machine -> R) : M R := fun s => (f s, s).

Definition modify (f : Machine -> Machine) : M unit := fun s => (tt, f s).

Definition exec {R} (m : M R) (s : Machine) : Machine := snd (m s).

Definition eval {R} (m : M R) (s : Machine) : R := fst (m s).

Declare Scope js_scope.
Delimit Scope js_scope with js.
Notation "x <- m ;; k" := (bind m (fun x => k))
  (at level 61, m at next level, right associativity) : js_scope.
Notation "m ;; k" := (bind m (fun _ => k))
  (at level 61, right associativity) : js_scope.
Local Open Scope js_scope.

(** JavaScript's [x !== 0] on numbers. *)
Definition nonzero (x : Z) : bool := negb (x =? 0).

(** ** Memory *)

Module Memory.
Import MemoryObj.

Definition set_data (d : Uint8Array.t) : M unit :=
  modify (fun s => mkMachine (mk d (ppuMemory (mem s))) (cpu s) (ppu s)).

Definition set_ppuMemory (d : Uint8Array.t) : M unit :=
  modify (fun s => mkMachine (mk (data (mem s)) d) (cpu s) (ppu s)).

Definition read (address : Z) : M Z :=
  let address := Z.land address 0xFFFF in
  d <- gets (fun s => data (mem s)) ;;
  if address <? 0x2000 then
    ret (Uint8Array.get d (Z.land address 0x07FF))
  else if (address >=? 0x2000) && (address <? 0x4000) then
    ret (Uint8Array.get d (Z.land address 0x2007))
  else if (address >=? 0x4000) && (address <=? 0x401F) then
    ret (Uint8Array.get d address)
  else if address >=? 0x4020 then
    ret (Uint8Array.get d address)
  else
    ret 0.

Definition write (address value : Z) : M unit :=
  let address := Z.land address 0xFFFF in
  let value := Z.land value 0xFF in
  d <- gets (fun s => data (mem s)) ;;
  if address <? 0x2000 then
    set_data (Uint8Array.set d (Z.land address 0x07FF) value)
  else if (address >=? 0x2000) && (address <? 0x4000) then
    set_data (Uint8Array.set d (Z.land address 0x2007) value)
  else if (address >=? 0x4000) && (address <=? 0x401F) then
    set_data (Uint8Array.set d address value)
  else if address >=? 0x4020 then
    set_data (Uint8Array.set d address value)
  else
    ret tt.

Definition ppuRead (address : Z) : M Z :=
  let address := Z.land address 0x3FFF in
  d <- gets (fun s => ppuMemory (mem s)) ;;
  ret (Uint8Array.get d address).

Definition ppuWrite (address value : Z) : M unit :=
  let address := Z.land address 0x3FFF in
  d <- gets (fun s => ppuMemory (mem s)) ;;
  set_ppuMemory (Uint8Array.set d address value).
End Memory.

(** ** CPU *)

Module CPU.
Import CPUObj FlagsObj.

(** *** Field access.  [CPU.A = v] and [CPU.Flags.CarryFlag = b] in the
    source are the setters below; nothing else of the machine changes. *)

Definition upd (f : CPUObj.t -> CPUObj.t) : M unit :=
  modify (fun s => mkMachine (mem s) (f (cpu s)) (ppu s)).

Definition updFlags (f : FlagsObj.t -> FlagsObj.t) : M unit :=
  upd (fun c => CPUObj.mk (A c) (X c) (Y c) (PC c) (SP c) (f (Flags c))).

Definition getA : M Z := gets (fun s => A (cpu s)).
Definition getX : M Z := gets (fun s => X (cpu s)).
Definition getY : M Z := gets (fun s => Y (cpu s)).
Definition getPC : M Z := gets (fun s => PC (cpu s)).
Definition getSP : M Z := gets (fun s => SP (cpu s)).

Definition setA (v : Z) : M unit :=
  upd (fun c => CPUObj.mk v (X c) (Y c) (PC c) (SP c) (Flags c)).
Definition setX (v : Z) : M unit :=
  upd (fun c => CPUObj.mk (A c) v (Y c) (PC c) (SP c) (Flags c)).
Definition setY (v : Z) : M unit :=
  upd (fun c => CPUObj.mk (A c) (X c) v (PC c) (SP c) (Flags c)).
Definition setPC (v : Z) : M unit :=
  upd (fun c => CPUObj.mk (A c) (X c) (Y c) v (SP c) (Flags c)).
Definition setSP (v : Z) : M unit :=
  upd (fun c => CPUObj.mk (A c) (X c) (Y c) (PC c) v (Flags c)).

Definition getFlag (f : FlagsObj.t -> bool) : M bool :=
  gets (fun s => f (Flags (cpu s))).

Definition setBreakFlag (b : bool) : M unit :=
  updFlags (fun f => FlagsObj.mk b (CarryFlag f) (DecimalModeFlag f)
    (InterruptFlag f) (NegativeFlag f) (OverflowFlag f) (ZeroFlag f)).
Definition setCarryFlag (b : bool) : M unit :=
  updFlags (fun f => FlagsObj.mk (BreakFlag f) b (DecimalModeFlag f)
    (InterruptFlag f) (NegativeFlag f) (OverflowFlag f) (ZeroFlag f)).
Definition setDecimalModeFlag (b : bool) : M unit :=
  updFlags (fun f => FlagsObj.mk (BreakFlag f) (CarryFlag f) b
    (InterruptFlag f) (NegativeFlag f) (OverflowFlag f) (ZeroFlag f)).
Definition setInterruptFlag (b : bool) : M unit :=
  updFlags (fun f => FlagsObj.mk (BreakFlag f) (CarryFlag f)
    (DecimalModeFlag f) b (NegativeFlag f) (OverflowFlag f) (ZeroFlag f)).
Definition setNegativeFlag (b : bool) : M unit :=
  updFlags (fun f => FlagsObj.mk (BreakFlag f) (CarryFlag f)
    (DecimalModeFlag f) (InterruptFlag f) b (OverflowFlag f) (ZeroFlag f)).
Definition setOverflowFlag (b : bool) : M unit :=
  updFlags (fun f => FlagsObj.mk (BreakFlag f) (CarryFlag f)
    (DecimalModeFlag f) (InterruptFlag f) (NegativeFlag f) b (ZeroFlag f)).
Definition setZeroFlag (b : bool) : M unit :=
  updFlags (fun f => FlagsObj.mk (BreakFlag f) (CarryFlag f)
    (DecimalModeFlag f) (InterruptFlag f) (NegativeFlag f)
    (OverflowFlag f) b).

(** [CPU.PC += 1] and the stack pointer moves [(CPU.SP -+ 1) & 0xFF]. *)
Definition incPC : M unit := pc <- getPC ;; setPC (pc + 1).
Definition decSP : M unit := sp <- getSP ;; setSP (Z.land (sp - 1) 0xFF).
Definition incSP : M unit := sp <- getSP ;; setSP (Z.land (sp + 1) 0xFF).

(** *** Reset button *)
Definition reset : M unit :=
  setA 0x00 ;;
  setX 0x00 ;;
  setY 0x00 ;;
  setPC 0x8000 ;;
  setSP 0xFD.

Definition getStatusFlags : M Z :=
  f <- gets (fun s => Flags (cpu s)) ;;
  ret (Z.lor (Z.lor (Z.lor (Z.lor (Z.lor (Z.lor
        (if CarryFlag f then 0x01 else 0)
        (if ZeroFlag f then 0x02 else 0))
        (if InterruptFlag f then 0x04 else 0))
        (if DecimalModeFlag f then 0x08 else 0))
        (if BreakFlag f then 0x10 else 0))
        (if OverflowFlag f then 0x40 else 0))
        (if NegativeFlag f then 0x80 else 0)).

Definition setFlags (value : Z) : M unit :=
  setCarryFlag (nonzero (Z.land value 0x01)) ;;
  setZeroFlag (nonzero (Z.land value 0x02)) ;;
  setInterruptFlag (nonzero (Z.land value 0x04)) ;;
  setDecimalModeFlag (nonzero (Z.land value 0x08)) ;;
  setBreakFlag (nonzero (Z.land value 0x10)) ;;
  setOverflowFlag (nonzero (Z.land value 0x40)) ;;
  setNegativeFlag (nonzero (Z.land value 0x80)).

Definition readMemory (address : Z) : M Z := Memory.read address.

Definition writeMemory (address value : Z) : M unit :=
  Memory.write address value.

(** *** Addressing modes *)

Definition Absolute : M Z :=
  pc <- getPC ;;
  lowByte <- readMemory pc ;;
  incPC ;;
  pc <- getPC ;;
  highByte <- readMemory pc ;;
  incPC ;;
  ret (Z.lor (Z.shiftl highByte 8) lowByte).

Definition AbsoluteX : M Z :=
  baseAddress <- Absolute ;;
  x <- getX ;;
  ret (Z.land (baseAddress + x) 0xFFFF).

Definition AbsoluteY : M Z :=
  baseAddress <- Absolute ;;
  y <- getY ;;
  ret (Z.land (baseAddress + y) 0xFFFF).

Definition Accumulator : M Z := getA.

Definition Immediate : M Z :=
  pc <- getPC ;;
  operand <- readMemory pc ;;
  incPC ;;
  ret operand.

Definition IndX : M Z :=
  pc <- getPC ;;
  b <- readMemory pc ;;
  x <- getX ;;
  let zeroPageAddress := Z.land (b + x) 0xFF in
  incPC ;;
  lowByte <- readMemory zeroPageAddress ;;
  highByte <- readMemory (Z.land (zeroPageAddress + 1) 0xFF) ;;
  ret (Z.lor (Z.shiftl highByte 8) lowByte).

Definition IndY : M Z :=
  pc <- getPC ;;
  zeroPageAddress <- readMemory pc ;;
  incPC ;;
  lowByte <- readMemory zeroPageAddress ;;
  highByte <- readMemory (Z.land (zeroPageAddress + 1) 0xFF) ;;
  let baseAddress := Z.lor (Z.shiftl highByte 8) lowByte in
  y <- getY ;;
  ret (Z.land (baseAddress + y) 0xFFFF).

Definition Indirect : M Z :=
  pc <- getPC ;;
  lowByte <- readMemory pc ;;
  incPC ;;
  pc <- getPC ;;
  highByte <- readMemory pc ;;
  incPC ;;
  let pointer := Z.lor (Z.shiftl highByte 8) lowByte in
  effectiveLowByte <- readMemory pointer ;;
  effectiveHighByte <-
    readMemory (Z.lor (Z.land pointer 0xFF00) (Z.land (pointer + 1) 0xFF)) ;;
  ret (Z.lor (Z.shiftl effectiveHighByte 8) effectiveLowByte).

Definition Relative : M Z :=
  pc <- getPC ;;
  offset <- readMemory pc ;;
  incPC ;;
  pc <- getPC ;;
  if offset <? 0x80 then ret (pc + offset)
  else ret (pc + offset - 0x100).

Definition ZeroPage : M Z :=
  pc <- getPC ;;
  address <- readMemory pc ;;
  incPC ;;
  ret address.

Definition ZeroPageX : M Z :=
  pc <- getPC ;;
  b <- readMemory pc ;;
  x <- getX ;;
  let address := Z.land (b + x) 0xFF in
  incPC ;;
  ret address.

Definition ZeroPageY : M Z :=
  pc <- getPC ;;
  b <- readMemory pc ;;
  y <- getY ;;
  let address := Z.land (b + y) 0xFF in
  incPC ;;
  ret address.

(** *** Instruction set *)

(** The two flag updates that close most instructions:
    [ZeroFlag = (v === 0)] and [NegativeFlag = (v & 0x80) !== 0]. *)
Definition setZN (v : Z) : M unit :=
  setZeroFlag (v =? 0) ;;
  setNegativeFlag (nonzero (Z.land v 0x80)).

Definition ADC (operand : Z) : M unit :=
  c <- getFlag CarryFlag ;;
  let carry := if c then 1 else 0 in
  a <- getA ;;
  let result := a + operand + carry in
  setCarryFlag (result >? 0xFF) ;;
  setZeroFlag (Z.land result 0xFF =? 0) ;;
  setNegativeFlag (nonzero (Z.land result 0x80)) ;;
  a <- getA ;;
  setOverflowFlag
    (nonzero (Z.land (Z.land (Z.lxor a result) (Z.lxor operand result)) 0x80)) ;;
  setA (Z.land result 0xFF).

Definition AND (operand : Z) : M unit :=
  a <- getA ;;
  setA (Z.land a operand) ;;
  a <- getA ;;
  setZN a.

Definition ASL_A : M unit :=
  a <- getA ;;
  setCarryFlag (nonzero (Z.land a 0x80)) ;;
  setA (Z.land (Z.shiftl a 1) 0xFF) ;;
  a <- getA ;;
  setZN a.

Definition ASL (address : Z) : M unit :=
  value <- readMemory address ;;
  setCarryFlag (nonzero (Z.land value 0x80)) ;;
  let value := Z.land (Z.shiftl value 1) 0xFF in
  writeMemory address value ;;
  setZN value.

Definition BCC (operand : Z) : M unit :=
  c <- getFlag CarryFlag ;; if negb c then setPC operand else ret tt.
Definition BCS (operand : Z) : M unit :=
  c <- getFlag CarryFlag ;; if c then setPC operand else ret tt.
Definition BEQ (operand : Z) : M unit :=
  z <- getFlag ZeroFlag ;; if z then setPC operand else ret tt.
Definition BNE (operand : Z) : M unit :=
  z <- getFlag ZeroFlag ;; if negb z then setPC operand else ret tt.
Definition BMI (operand : Z) : M unit :=
  n <- getFlag NegativeFlag ;; if n then setPC operand else ret tt.
Definition BPL (operand : Z) : M unit :=
  n <- getFlag NegativeFlag ;; if negb n then setPC operand else ret tt.
Definition BVS (operand : Z) : M unit :=
  v <- getFlag OverflowFlag ;; if v then setPC operand else ret tt.
Definition BVC (operand : Z) : M unit :=
  v <- getFlag OverflowFlag ;; if negb v then setPC operand else ret tt.

Definition BIT (operand : Z) : M unit :=
  value <- readMemory operand ;;
  a <- getA ;;
  setZeroFlag (Z.land a value =? 0) ;;
  setOverflowFlag (nonzero (Z.land value 0x40)) ;;
  setNegativeFlag (nonzero (Z.land value 0x80)).

Definition BRK : M unit :=
  incPC ;;
  sp <- getSP ;; pc <- getPC ;;
  writeMemory (0x0100 + sp) (Z.land (Z.shiftr pc 8) 0xFF) ;;
  decSP ;;
  sp <- getSP ;; pc <- getPC ;;
  writeMemory (0x0100 + sp) (Z.land pc 0xFF) ;;
  decSP ;;
  status <- getStatusFlags ;;
  let status := Z.lor status 0x10 in
  sp <- getSP ;;
  writeMemory (0x0100 + sp) status ;;
  decSP ;;
  setInterruptFlag true ;;
  lowByte <- readMemory 0xFFFE ;;
  highByte <- readMemory 0xFFFF ;;
  setPC (Z.lor (Z.shiftl highByte 8) lowByte).

Definition CLC : M unit := setCarryFlag false.
Definition CLD : M unit := setDecimalModeFlag false.
Definition CLI : M unit := setInterruptFlag false.
Definition CLV : M unit := setOverflowFlag false.

Definition CMP (operand : Z) : M unit :=
  a <- getA ;;
  let result := a - operand in
  a <- getA ;;
  setCarryFlag (a >=? operand) ;;
  setZeroFlag (Z.land result 0xFF =? 0) ;;
  setNegativeFlag (nonzero (Z.land result 0x80)).

Definition CPX (operand : Z) : M unit :=
  x <- getX ;;
  let result := x - operand in
  x <- getX ;;
  setCarryFlag (x >=? operand) ;;
  setZeroFlag (Z.land result 0xFF =? 0) ;;
  setNegativeFlag (nonzero (Z.land result 0x80)).

Definition CPY (operand : Z) : M unit :=
  y <- getY ;;
  let result := y - operand in
  y <- getY ;;
  setCarryFlag (y >=? operand) ;;
  setZeroFlag (Z.land result 0xFF =? 0) ;;
  setNegativeFlag (nonzero (Z.land result 0x80)).

Definition DEC (address : Z) : M unit :=
  v <- readMemory address ;;
  let value := Z.land (v - 1) 0xFF in
  writeMemory address value ;;
  setZN value.

Definition DEX : M unit :=
  x <- getX ;; setX (Z.land (x - 1) 0xFF) ;; x <- getX ;; setZN x.
Definition DEY : M unit :=
  y <- getY ;; setY (Z.land (y - 1) 0xFF) ;; y <- getY ;; setZN y.

Definition EOR (operand : Z) : M unit :=
  a <- getA ;;
  setA (Z.lxor a operand) ;;
  a <- getA ;;
  setZN a.

Definition INC (address : Z) : M unit :=
  v <- readMemory address ;;
  let value := Z.land (v + 1) 0xFF in
  writeMemory address value ;;
  setZN value.

Definition INX : M unit :=
  x <- getX ;; setX (Z.land (x + 1) 0xFF) ;; x <- getX ;; setZN x.
Definition INY : M unit :=
  y <- getY ;; setY (Z.land (y + 1) 0xFF) ;; y <- getY ;; setZN y.

Definition JMP_ABS (address : Z) : M unit := setPC address.

Definition JMP_IND (address : Z) : M unit :=
  lowByte <- readMemory address ;;
  let highByteAddress :=
    Z.lor (Z.land address 0xFF00) (Z.land (address + 1) 0xFF) in
  highByte <- readMemory highByteAddress ;;
  setPC (Z.lor (Z.shiftl highByte 8) lowByte).

Definition JSR (address : Z) : M unit :=
  pc <- getPC ;;
  let returnAddress := pc - 1 in
  sp <- getSP ;;
  writeMemory (0x0100 + sp) (Z.land (Z.shiftr returnAddress 8) 0xFF) ;;
  decSP ;;
  sp <- getSP ;;
  writeMemory (0x0100 + sp) (Z.land returnAddress 0xFF) ;;
  decSP ;;
  setPC address.

Definition LDA (operand : Z) : M unit :=
  setA operand ;; a <- getA ;; setZN a.
Definition LDX (operand : Z) : M unit :=
  setX operand ;; x <- getX ;; setZN x.
Definition LDY (operand : Z) : M unit :=
  setY operand ;; y <- getY ;; setZN y.

Definition LSR_A : M unit :=
  a <- getA ;;
  setCarryFlag (nonzero (Z.land a 0x01)) ;;
  setA (Z.shiftr a 1) ;;
  a <- getA ;;
  setZeroFlag (a =? 0) ;;
  setNegativeFlag false.

Definition LSR (address : Z) : M unit :=
  value <- readMemory address ;;
  setCarryFlag (nonzero (Z.land value 0x01)) ;;
  let value := Z.shiftr value 1 in
  writeMemory address value ;;
  setZeroFlag (value =? 0) ;;
  setNegativeFlag false.

Definition NOP : M unit := ret tt.

Definition ORA (operand : Z) : M unit :=
  a <- getA ;;
  setA (Z.lor a operand) ;;
  a <- getA ;;
  setZN a.

Definition PHA : M unit :=
  sp <- getSP ;; a <- getA ;;
  writeMemory (0x0100 + sp) a ;;
  decSP.

Definition PHP : M unit :=
  f <- getStatusFlags ;;
  let status := Z.lor f 0x10 in
  sp <- getSP ;;
  writeMemory (0x0100 + sp) status ;;
  decSP.

Definition PLA : M unit :=
  incSP ;;
  sp <- getSP ;;
  v <- readMemory (0x0100 + sp) ;;
  setA v ;;
  a <- getA ;;
  setZN a.

Definition PLP : M unit :=
  incSP ;;
  sp <- getSP ;;
  status <- readMemory (0x0100 + sp) ;;
  setFlags status.

Definition ROL_A : M unit :=
  c <- getFlag CarryFlag ;;
  let carry := if c then 1 else 0 in
  a <- getA ;;
  setCarryFlag (nonzero (Z.land a 0x80)) ;;
  setA (Z.land (Z.lor (Z.shiftl a 1) carry) 0xFF) ;;
  a <- getA ;;
  setZN a.

Definition ROL (address : Z) : M unit :=
  value <- readMemory address ;;
  c <- getFlag CarryFlag ;;
  let carry := if c then 1 else 0 in
  setCarryFlag (nonzero (Z.land value 0x80)) ;;
  let value := Z.land (Z.lor (Z.shiftl value 1) carry) 0xFF in
  writeMemory address value ;;
  setZN value.

Definition ROR_A : M unit :=
  c <- getFlag CarryFlag ;;
  let carry := if c then 0x80 else 0 in
  a <- getA ;;
  setCarryFlag (nonzero (Z.land a 0x01)) ;;
  setA (Z.lor (Z.shiftr a 1) carry) ;;
  a <- getA ;;
  setZN a.

Definition ROR (address : Z) : M unit :=
  value <- readMemory address ;;
  c <- getFlag CarryFlag ;;
  let carry := if c then 0x80 else 0 in
  setCarryFlag (nonzero (Z.land value 0x01)) ;;
  let value := Z.lor (Z.shiftr value 1) carry in
  writeMemory address value ;;
  setZN value.

Definition RTI : M unit :=
  incSP ;;
  sp <- getSP ;;
  status <- readMemory (0x0100 + sp) ;;
  setFlags status ;;
  incSP ;;
  sp <- getSP ;;
  lo <- readMemory (0x0100 + sp) ;;
  incSP ;;
  sp <- getSP ;;
  hi <- readMemory (0x0100 + sp) ;;
  setPC (Z.lor (Z.shiftl hi 8) lo).

Definition RTS : M unit :=
  incSP ;;
  sp <- getSP ;;
  lo <- readMemory (0x0100 + sp) ;;
  incSP ;;
  sp <- getSP ;;
  hi <- readMemory (0x0100 + sp) ;;
  setPC (Z.lor (Z.shiftl hi 8) lo + 1).

Definition SBC (operand : Z) : M unit :=
  c <- getFlag CarryFlag ;;
  let carry := if c then 0 else 1 in
  a <- getA ;;
  let temp := a - operand - carry in
  setOverflowFlag (nonzero (Z.land (Z.lxor a temp) 0x80)
                   && nonzero (Z.land (Z.lxor a operand) 0x80)) ;;
  setCarryFlag (temp >=? 0) ;;
  let temp := Z.land temp 0xFF in
  setZeroFlag (temp =? 0) ;;
  setNegativeFlag (nonzero (Z.land temp 0x80)) ;;
  setA temp.

Definition SEC : M unit := setCarryFlag true.
Definition SED : M unit := setDecimalModeFlag true.
Definition SEI : M unit := setInterruptFlag true.

Definition STA (address : Z) : M unit :=
  a <- getA ;; writeMemory address a.
Definition STX (address : Z) : M unit :=
  x <- getX ;; writeMemory address x.
Definition STY (address : Z) : M unit :=
  y <- getY ;; writeMemory address y.

Definition TAX : M unit := a <- getA ;; setX a ;; x <- getX ;; setZN x.
Definition TAY : M unit := a <- getA ;; setY a ;; y <- getY ;; setZN y.
Definition TSX : M unit := sp <- getSP ;; setX sp ;; x <- getX ;; setZN x.
Definition TXA : M unit := x <- getX ;; setA x ;; a <- getA ;; setZN a.
Definition TXS : M unit := x <- getX ;; setSP x.
Definition TYA : M unit := y <- getY ;; setA y ;; a <- getA ;; setZN a.

(** *** Decode and execute next instruction *)

(** The body of the [switch (opcode)] statement.  The comment on each line
    is the source's own label of the case; the right-hand side is what the
    case calls.  The source assigns the resolved operand to a global
    variable [operand] that no instruction reads back, so it is a local
    binding here.  An opcode with no case logs ["[UNRECOGNIZED]"] and
    changes nothing. *)
Definition switch (opcode : Z) : M unit :=
  match opcode with
  | 0x69 => operand <- Immediate ;; ADC operand  (* ADC #n -- Immediate *)
  | 0x6D => operand <- Absolute ;; ADC operand  (* ADC nn -- Absolute *)
  | 0x65 => operand <- ZeroPage ;; ADC operand  (* ADC n -- Zero Page *)
  | 0x61 => operand <- IndX ;; ADC operand  (* ADC (n,X) -- Ind X *)
  | 0x71 => operand <- IndY ;; ADC operand  (* ADC (n),Y -- Ind Y *)
  | 0x75 => operand <- ZeroPageX ;; ADC operand  (* ADC n,X -- Zero Page X *)
  | 0x7D => operand <- AbsoluteX ;; ADC operand  (* ADC nn,X -- Absolute X *)
  | 0x79 => operand <- AbsoluteY ;; ADC operand  (* ADC NN,Y -- Absolute Y *)
  | 0x29 => operand <- Immediate ;; AND operand  (* AND #n -- Immediate *)
  | 0x2D => operand <- Absolute ;; AND operand  (* AND nn -- Absolute *)
  | 0x25 => operand <- ZeroPage ;; AND operand  (* AND n -- Zero Page *)
  | 0x21 => operand <- IndX ;; AND operand  (* AND (n,X) -- Ind Y *)
  | 0x31 => operand <- IndY ;; AND operand  (* AND (n),Y -- Ind X *)
  | 0x35 => operand <- ZeroPageX ;; AND operand  (* AND n,X -- Zero Page X *)
  | 0x3D => operand <- AbsoluteX ;; AND operand  (* AND nn,X -- Absolute X *)
  | 0x39 => operand <- AbsoluteY ;; AND operand  (* AND nn,Y -- Absolute Y *)
  | 0x0E => operand <- Absolute ;; ASL operand  (* ASL nn -- Absolute *)
  | 0x06 => operand <- ZeroPage ;; ASL operand  (* ASL n -- Zero Page *)
  | 0x0A => ASL_A  (* ASL A -- Accumulator *)
  | 0x16 => operand <- ZeroPageX ;; ASL operand  (* ASL n,X -- Zero Page X *)
  | 0x1E => operand <- AbsoluteX ;; ASL operand  (* ASL nn,X -- Absolute X *)
  | 0x90 => operand <- Relative ;; BCC operand  (* BCC n -- Relative *)
  | 0xB0 => operand <- Relative ;; BCS operand  (* BCS n -- Relative *)
  | 0xF0 => operand <- Relative ;; BEQ operand  (* BEQ n -- Relative *)
  | 0xD0 => operand <- Relative ;; BNE operand  (* BNE n -- Relative *)
  | 0x30 => operand <- Relative ;; BMI operand  (* BMI n -- Relative *)
  | 0x10 => operand <- Relative ;; BPL operand  (* BPL n -- Relative *)
  | 0x50 => operand <- Relative ;; BVS operand  (* BVS n -- Relative *)
  | 0x70 => operand <- Relative ;; BVS operand  (* BVS n -- Relative *)
  | 0x2C => operand <- Absolute ;; BIT operand  (* BIT nn -- Absolute *)
  | 0x24 => operand <- ZeroPage ;; BIT operand  (* BIT n -- Zero Page *)
  | 0x00 => BRK  (* BRK -- None *)
  | 0x18 => CLC  (* CLC -- None *)
  | 0xD8 => CLD  (* CLD -- None *)
  | 0x58 => CLI  (* CLI -- None *)
  | 0xB8 => CLV  (* CLV -- None *)
  | 0xC9 => operand <- Immediate ;; CMP operand  (* CMP #n -- Immediate *)
  | 0xCD => operand <- Absolute ;; CMP operand  (* CMP nn -- Absolute *)
  | 0xC5 => operand <- ZeroPage ;; CMP operand  (* CMP n -- Zero Page *)
  | 0xC1 => operand <- IndX ;; CMP operand  (* CMP (n,X) -- Ind X *)
  | 0xD1 => operand <- IndY ;; CMP operand  (* CMP (n),Y -- Ind Y *)
  | 0xD5 => operand <- ZeroPageX ;; CMP operand  (* CMP n,X -- Zero Page X *)
  | 0xDD => operand <- AbsoluteX ;; CMP operand  (* CMP nn,X -- Absolute X *)
  | 0xD9 => operand <- AbsoluteY ;; CMP operand  (* CMP nn,Y -- Absolute Y *)
  | 0xE0 => operand <- Immediate ;; CPX operand  (* CPX #n -- Immediate *)
  | 0xEC => operand <- Absolute ;; CPX operand  (* CPX nn -- Absolute *)
  | 0xE4 => operand <- ZeroPage ;; CPX operand  (* CPX n -- Zero Page *)
  | 0xC0 => operand <- Immediate ;; CPY operand  (* CPY #n -- Immediate *)
  | 0xCC => operand <- Absolute ;; CPY operand  (* CPY nn -- Absolute *)
  | 0xC4 => operand <- ZeroPage ;; CPY operand  (* CPY n -- Zero Page *)
  | 0xCE => operand <- Absolute ;; DEC operand  (* DEC nn -- Absolute *)
  | 0xC6 => operand <- ZeroPage ;; DEC operand  (* DEC n -- Zero Page *)
  | 0xD6 => operand <- ZeroPageX ;; DEC operand  (* DEC n,X -- Zero Page X *)
  | 0xDE => operand <- AbsoluteX ;; DEC operand  (* DEC nn,X -- Absolute X *)
  | 0xCA => DEX  (* DEX -- None *)
  | 0x88 => DEY  (* DEY -- None *)
  | 0x49 => operand <- Immediate ;; EOR operand  (* EOR #n -- Immediate *)
  | 0x4D => operand <- Absolute ;; EOR operand  (* EOR nn -- Absolute *)
  | 0x45 => operand <- ZeroPage ;; EOR operand  (* EOR n -- Zero Page *)
  | 0x41 => operand <- IndX ;; EOR operand  (* EOR (n,X) -- Ind X *)
  | 0x51 => operand <- IndY ;; EOR operand  (* EOR (n),Y -- Ind Y *)
  | 0x55 => operand <- ZeroPageX ;; EOR operand  (* EOR n,X -- Zero Page X *)
  | 0x5D => operand <- AbsoluteX ;; EOR operand  (* EOR nn,X -- Absolute X *)
  | 0x59 => operand <- AbsoluteY ;; EOR operand  (* EOR nn,Y -- Absolute Y *)
  | 0xEE => operand <- Absolute ;; INC operand  (* INC nn -- Absolute *)
  | 0xE6 => operand <- ZeroPage ;; INC operand  (* INC n -- Zero Page *)
  | 0xF6 => operand <- ZeroPageX ;; INC operand  (* INC n,X -- Zero Page X *)
  | 0xFE => operand <- AbsoluteX ;; INC operand  (* INC nn,X -- Absolute X *)
  | 0xE8 => INX  (* INX -- None *)
  | 0xC8 => INY  (* INY -- None *)
  | 0x4C => operand <- Absolute ;; JMP_ABS operand  (* JMP nn -- Absolute *)
  | 0x6C => operand <- Indirect ;; JMP_IND operand  (* JMP (nn) -- Indirect *)
  | 0x20 => operand <- Absolute ;; JSR operand  (* JSR nn -- Absolute *)
  | 0xA9 => operand <- Immediate ;; LDA operand  (* LDA #n -- Immediate *)
  | 0xAD => operand <- Absolute ;; LDA operand  (* LDA nn -- Absolute *)
  | 0xA5 => operand <- ZeroPage ;; LDA operand  (* LDA n -- Zero Page *)
  | 0xA1 => operand <- IndX ;; LDA operand  (* LDA (n,X) -- Ind X *)
  | 0xB1 => operand <- IndY ;; LDA operand  (* LDA (n),Y -- Ind Y *)
  | 0xB5 => operand <- ZeroPageX ;; LDA operand  (* LDA n,X -- Zero Page X *)
  | 0xBD => operand <- AbsoluteX ;; LDA operand  (* LDA nn,X -- Absolute X *)
  | 0xB9 => operand <- AbsoluteY ;; LDA operand  (* LDA nn,Y -- Absolute Y *)
  | 0xA2 => operand <- Immediate ;; LDX operand  (* LDX #n -- Immediate *)
  | 0xAE => operand <- Absolute ;; LDX operand  (* LDX nn -- Absolute *)
  | 0xA6 => operand <- ZeroPage ;; LDX operand  (* LDX n -- Zero Page *)
  | 0xBE => operand <- AbsoluteY ;; LDX operand  (* LDX nn,Y -- Absolute Y *)
  | 0xB6 => operand <- ZeroPageY ;; LDX operand  (* LDX n,Y -- Zero Page Y *)
  | 0xA0 => operand <- Immediate ;; LDY operand  (* LDY #n -- Immediate *)
  | 0xAC => operand <- Absolute ;; LDY operand  (* LDY nn -- Absolute *)
  | 0xA4 => operand <- ZeroPage ;; LDY operand  (* LDY n -- Zero Page *)
  | 0xB4 => operand <- ZeroPageX ;; LDY operand  (* LDY n,X -- Zero Page X *)
  | 0xBC => operand <- AbsoluteX ;; LDY operand  (* LDY nn,X -- Absolute X *)
  | 0x4E => operand <- AbsoluteX ;; LSR operand  (* LSR nn -- Absolute *)
  | 0x46 => operand <- ZeroPage ;; LSR operand  (* LSR n -- Zero Page *)
  | 0x4A => LSR_A  (* LSR A -- Accumulator *)
  | 0x56 => operand <- ZeroPageX ;; LSR operand  (* LSR n,X -- Zero Page X *)
  | 0x5E => operand <- AbsoluteX ;; LSR operand  (* LSR nn,X -- Absolute X *)
  | 0xEA => NOP  (* NOP -- None *)
  | 0x09 => operand <- Immediate ;; LSR operand  (* ORA #n -- Immediate *)
  | 0x0D => operand <- Absolute ;; LSR operand  (* ORA nn -- Absolute *)
  | 0x05 => operand <- ZeroPage ;; LSR operand  (* ORA n -- Zero Page *)
  | 0x01 => operand <- IndX ;; LSR operand  (* ORA (n,X) -- Ind X *)
  | 0x11 => operand <- IndY ;; LSR operand  (* ORA (n),Y -- Ind Y *)
  | 0x15 => operand <- ZeroPageX ;; LSR operand  (* ORA n,X -- Zero Page X *)
  | 0x1D => operand <- AbsoluteX ;; LSR operand  (* ORA nn,X -- Absolute X *)
  | 0x19 => operand <- AbsoluteY ;; LSR operand  (* ORA nn,Y -- Absolute Y *)
  | 0x48 => PHA  (* PHA -- None *)
  | 0x08 => PHP  (* PHP -- None *)
  | 0x68 => PLA  (* PLA -- None *)
  | 0x28 => PLP  (* PLP -- None *)
  | 0x2E => operand <- Absolute ;; ROL operand  (* ROL nn -- Absolute *)
  | 0x26 => operand <- ZeroPage ;; ROL operand  (* ROL n -- Zero Page *)
  | 0x2A => ROL_A  (* ROL A -- Accumulator *)
  | 0x36 => operand <- ZeroPageX ;; ROL operand  (* ROL n,X -- Zero Page X *)
  | 0x3E => operand <- AbsoluteX ;; ROL operand  (* ROL nn,X -- Absolute X *)
  | 0x6E => operand <- Absolute ;; ROL operand  (* ROR nn -- Absolute *)
  | 0x66 => operand <- ZeroPage ;; ROL operand  (* ROR n -- Zero Page *)
  | 0x6A => ROL_A  (* ROR A -- Accumulator *)
  | 0x76 => operand <- ZeroPageX ;; ROL operand  (* ROR n,X -- Zero Page X *)
  | 0x7E => operand <- AbsoluteX ;; ROL operand  (* ROR nn,X -- Absolute X *)
  | 0x40 => RTI  (* RTI -- None *)
  | 0x60 => RTS  (* RTS -- None *)
  | 0xE9 => operand <- Immediate ;; SBC operand  (* SBC #n -- Immediate *)
  | 0xED => operand <- Absolute ;; SBC operand  (* SBC nn -- Absolute *)
  | 0xE5 => operand <- ZeroPage ;; SBC operand  (* SBC n -- Zero Page *)
  | 0xE1 => operand <- IndX ;; SBC operand  (* SBC (n,X) -- Ind X *)
  | 0xF1 => operand <- IndY ;; SBC operand  (* SBC (n),Y -- Ind Y *)
  | 0xF5 => operand <- ZeroPageX ;; SBC operand  (* SBC n,X -- Zero Page X *)
  | 0xFD => operand <- AbsoluteX ;; SBC operand  (* SBC nn,X -- Absolute X *)
  | 0xF9 => operand <- AbsoluteY ;; SBC operand  (* SBC nn,Y -- Absolute Y *)
  | 0x38 => SEC  (* SEC -- None *)
  | 0xF8 => SED  (* SED -- None *)
  | 0x78 => SEI  (* SEI -- None *)
  | 0x8D => operand <- Absolute ;; STA operand  (* STA nn -- Absolute *)
  | 0x85 => operand <- ZeroPage ;; STA operand  (* STA n -- Zero Page *)
  | 0x81 => operand <- IndX ;; STA operand  (* STA (n,X) -- Ind X *)
  | 0x91 => operand <- IndY ;; STA operand  (* STA (n),Y -- Ind Y *)
  | 0x95 => operand <- ZeroPageX ;; STA operand  (* STA n,X -- Zero Page X *)
  | 0x9D => operand <- AbsoluteX ;; STA operand  (* STA nn,X -- Absolute X *)
  | 0x99 => operand <- AbsoluteY ;; STA operand  (* STA nn,Y -- Absolute Y *)
  | 0x8E => operand <- Absolute ;; STX operand  (* STX nn -- Absolute *)
  | 0x86 => operand <- ZeroPage ;; STX operand  (* STX n -- Zero Page *)
  | 0x96 => operand <- ZeroPageY ;; STX operand  (* STX n,Y -- Zero Page Y *)
  | 0x8C => operand <- Absolute ;; STY operand  (* STY nn -- Absolute *)
  | 0x84 => operand <- ZeroPage ;; STY operand  (* STY n -- Zero Page *)
  | 0x94 => operand <- ZeroPageX ;; STY operand  (* STY n,X -- Zero Page X *)
  | 0xAA => TAX  (* TAX -- None *)
  | 0xA8 => TAY  (* TAY -- None *)
  | 0xBA => TSX  (* TSX -- None *)
  | 0x8A => TXA  (* TXA -- None *)
  | 0x9A => TXS  (* TXS -- None *)
  | 0x98 => TYA  (* TYA -- None *)
  | _ => ret tt
  end.

Definition decodeAndExecute : M unit :=
  pc <- getPC ;;
  opcode <- readMemory pc ;;
  incPC ;;
  switch opcode.
End CPU.

(** ** PPU *)

Definition CYCLES_PER_SCANLINE : Z := 113.
Definition PPU_CYCLES_PER_SCANLINE : Z := CYCLES_PER_SCANLINE * 3.

Module PPU.
Import PPUObj.

Definition upd (f : PPUObj.t -> PPUObj.t) : M unit :=
  modify (fun s => mkMachine (mem s) (cpu s) (f (ppu s))).

Definition set_ctrl (v : Z) : M unit :=
  upd (fun p => mk v (mask p) (status p) (oamAddr p) (oamData p)
                   (scroll p) (addr p) (data p) (currentScanline p)).
Definition set_mask (v : Z) : M unit :=
  upd (fun p => mk (ctrl p) v (status p) (oamAddr p) (oamData p)
                   (scroll p) (addr p) (data p) (currentScanline p)).
Definition set_status (v : Z) : M unit :=
  upd (fun p => mk (ctrl p) (mask p) v (oamAddr p) (oamData p)
                   (scroll p) (addr p) (data p) (currentScanline p)).
Definition set_oamAddr (v : Z) : M unit :=
  upd (fun p => mk (ctrl p) (mask p) (status p) v (oamData p)
                   (scroll p) (addr p) (data p) (currentScanline p)).
Definition set_oamData (v : Z) : M unit :=
  upd (fun p => mk (ctrl p) (mask p) (status p) (oamAddr p) v
                   (scroll p) (addr p) (data p) (currentScanline p)).
Definition set_scroll (v : Z) : M unit :=
  upd (fun p => mk (ctrl p) (mask p) (status p) (oamAddr p) (oamData p)
                   v (addr p) (data p) (currentScanline p)).
Definition set_addr (v : Z) : M unit :=
  upd (fun p => mk (ctrl p) (mask p) (status p) (oamAddr p) (oamData p)
                   (scroll p) v (data p) (currentScanline p)).
Definition set_data (v : Z) : M unit :=
  upd (fun p => mk (ctrl p) (mask p) (status p) (oamAddr p) (oamData p)
                   (scroll p) (addr p) v (currentScanline p)).
Definition set_currentScanline (v : Z) : M unit :=
  upd (fun p => mk (ctrl p) (mask p) (status p) (oamAddr p) (oamData p)
                   (scroll p) (addr p) (data p) v).

Definition reset : M unit :=
  set_ctrl 0x00 ;;
  set_mask 0x00 ;;
  set_status 0x00 ;;
  set_oamAddr 0x00 ;;
  set_oamData 0x00 ;;
  set_scroll 0x00 ;;
  set_addr 0x00 ;;
  set_data 0x00 ;;
  set_currentScanline 0.

(** The cases of [writeRegister] only latch the value; an address with no
    case reports on [console.error] and changes nothing. *)
Definition writeRegister (address value : Z) : M unit :=
  match address with
  | 0x2000 => set_ctrl value      (* PPUCTRL *)
  | 0x2001 => set_mask value      (* PPUMASK *)
  | 0x2002 => ret tt              (* PPUSTATUS - Read only *)
  | 0x2003 => set_oamAddr value   (* OAMADDR *)
  | 0x2004 => set_oamData value   (* OAMDATA *)
  | 0x2005 => set_scroll value    (* PPUSCROLL *)
  | 0x2006 => set_addr value      (* PPUADDR *)
  | 0x2007 => set_data value      (* PPUDATA *)
  | 0x4014 => ret tt              (* OAMDMA *)
  | _ => ret tt
  end.

Definition readRegister (address : Z) : M Z :=
  match address with
  | 0x2002 =>                     (* PPUSTATUS *)
      status <- gets (fun s => status (ppu s)) ;;
      ret status
  | 0x2004 => gets (fun s => oamData (ppu s))   (* OAMDATA *)
  | 0x2007 => gets (fun s => data (ppu s))      (* PPUDATA *)
  | _ => ret 0
  end.

Definition renderScanline : M unit := ret tt.

(** [for (let i = 0; i < cycles; i++)]: [n] iterations remain and [i] is
    the loop counter. *)
Fixpoint executeCycles_loop (n : nat) (i : Z) : M unit :=
  match n with
  | O => ret tt
  | S n' =>
      (if i mod CYCLES_PER_SCANLINE =? 0 then
         l <- gets (fun s => currentScanline (ppu s)) ;;
         set_currentScanline (l + 1) ;;
         renderScanline
       else ret tt) ;;
      executeCycles_loop n' (i + 1)
  end.

Definition executeCycles (cycles : Z) : M unit :=
  executeCycles_loop (Z.to_nat cycles) 0.

(** What [emulateFrame] runs three times after each CPU step. *)
Definition tick : M unit := executeCycles 1.
End PPU.

(** ** ROM loading *)

(** [romBuffer[i]]: a byte of the file, or [undefined] past its end. *)
Definition romByte (romBuffer : list Z) (i : Z) : option Z :=
  if i <? 0 then None else nth_error romBuffer (Z.to_nat i).

(** [x !== c] where [x] may be [undefined]. *)
Definition differs (x : option Z) (c : Z) : bool :=
  match x with
  | Some v => negb (v =? c)
  | None => true
  end.

(** An operand of [&] that may be [undefined]: JavaScript converts it to
    the integer 0.  [Memory.write] masks its value with [& 0xFF], so this is
    what becomes of a byte read past the end of the file. *)
Definition toInt32 (v : option Z) : Z :=
  match v with
  | Some n => n
  | None => 0
  end.

(** The copy loop of [loadRom]: [n] iterations remain, [i] indexes the file
    and [cpuMemoryAddress] the CPU memory. *)
Fixpoint loadRom_loop (romBuffer : list Z) (n : nat) (i cpuMemoryAddress : Z)
  : M unit :=
  match n with
  | O => ret tt
  | S n' =>
      if (cpuMemoryAddress <? 0x8000) || (cpuMemoryAddress >=? 0x10000)
      then ret tt  (* break *)
      else
        Memory.write cpuMemoryAddress (toInt32 (romByte romBuffer i)) ;;
        loadRom_loop romBuffer n' (i + 1) (cpuMemoryAddress + 1)
  end.

(** [loadRom] after [fs.readFileSync] has returned the file's bytes.  The
    function returns nothing; its two ways out are told apart here by the
    message it leaves on [console.error] ([inl]) or by a silent return
    ([inr]).  With a file of four bytes [romBuffer[4]] is [undefined], the
    size is [NaN] and the loop makes no iteration. *)
Definition loadRom (romBuffer : list Z) : M (string + unit) :=
  if differs (romByte romBuffer 0) 0x4E || differs (romByte romBuffer 1) 0x45
     || differs (romByte romBuffer 2) 0x53 || differs (romByte romBuffer 3) 0x1A
  then ret (inl "Invalid NES ROM file."%string)
  else
    let prgRomSize :=
      match romByte romBuffer 4 with
      | Some prgBanks => 16384 * prgBanks
      | None => 0
      end in
    loadRom_loop romBuffer (Z.to_nat prgRomSize) 16 0x8000 ;;
    CPU.reset ;;
    ret (inr tt).

(** ** Power-on state: the objects as their literals declare them. *)

Definition power_on : Machine :=
  mkMachine
    (MemoryObj.mk Uint8Array.make Uint8Array.make)
    (CPUObj.mk 0x00 0x00 0x00 0x8000 0xFD
       (FlagsObj.mk false false false false false false false))
    (PPUObj.mk 0 0 0 0 0 0 0 0 0).

(** Run [n] instructions. *)
Fixpoint run (n : nat) : M unit :=
  match n with
  | O => ret tt
  | S n' => CPU.decodeAndExecute ;; run n'
  end.

(** ** Invariants of computations *)

(** A computation preserves a property of the machine. *)
Definition preserves {R} (P : Machine -> Prop) (m : M R) : Prop :=
  forall s, P s -> P (exec m s).

(** [Memory.data] is an array of bytes. *)
Definition bytes_ok (s : Machine) : Prop :=
  Uint8Array.bytes (MemoryObj.data (mem s)).

(** The accumulator holds [a]. *)
Definition acc_is (a : Z) (s : Machine) : Prop := CPUObj.A (cpu s) = a.

(** ** The pointer dereference of the 6502's indirect jump *)

(** The 16-bit word at [ptr], its high byte fetched without carrying into
    the page number: the one dereference the specification gives to
    [JMP (ptr)]. *)
Definition deref_page_bug (ptr : Z) : M Z :=
  lo <- Memory.read ptr ;;
  hi <- Memory.read (Z.lor (Z.land ptr 0xFF00) (Z.land (ptr + 1) 0xFF)) ;;
  ret (Z.lor (Z.shiftl hi 8) lo).

(** ** Test machines *)

(** [ORA #$0F] at the power-on [PC] with [A = $F0]; the byte at $000F is
    $03. *)
Definition ora_machine : Machine :=
  exec (Memory.write 0x8000 0x09 ;; Memory.write 0x8001 0x0F ;;
        Memory.write 0x000F 0x03 ;; CPU.setA 0xF0) power_on.

(** [JMP ($0010)] at the power-on [PC]; the pointer at $0010 holds $1234 and
    the two bytes at $1234 hold $5678. *)
Definition jmp_machine : Machine :=
  exec (Memory.write 0x8000 0x6C ;; Memory.write 0x8001 0x10 ;;
        Memory.write 0x8002 0x00 ;;
        Memory.write 0x0010 0x34 ;; Memory.write 0x0011 0x12 ;;
        Memory.write 0x1234 0x78 ;; Memory.write 0x1235 0x56) power_on.

(** The page-bug scenario of the specification, its bytes written over the
    bus in the order the scenario lists them. *)
Definition jmp_scenario_machine : Machine :=
  exec (Memory.write 0x00FF 0x34 ;; Memory.write 0x0000 0x12 ;;
        Memory.write 0x1000 0x6C ;; Memory.write 0x1001 0xFF ;;
        Memory.write 0x1002 0x00 ;; CPU.setPC 0x1000) power_on.

(** A machine whose reset vector at $FFFC/$FFFD holds $C000. *)
Definition vector_machine : Machine :=
  exec (Memory.write 0xFFFC 0x00 ;; Memory.write 0xFFFD 0xC0) power_on.

(** A machine after the program has stored $80 to $2002. *)
Definition status_machine : Machine :=
  exec (Memory.write 0x2002 0x80) power_on.

(** The PPU after [n] ticks from power-on. *)
Definition after_ticks (n : nat) : Machine :=
  Nat.iter n (exec PPU.tick) power_on.

(** An iNES header alone: magic, no PRG bank, no CHR bank, mapper 1. *)
Definition mapper1_rom : list Z :=
  [0x4E; 0x45; 0x53; 0x1A; 0; 0; 0x10; 0; 0; 0; 0; 0; 0; 0; 0; 0].

(** ** The specification's wording, where the code departs from it *)

(** RESET as the specification has it ([SP], [A], [X], [Y], [I] and [PC] from
    the vector at $FFFC/$FFFD, nothing written).  The CPU object has no U
    flag, so that part has nothing to be stated on. *)
Definition spec_reset (s : Machine) : Prop :=
  let s' := exec CPU.reset s in
  CPUObj.SP (cpu s') = 0xFD /\
  CPUObj.A (cpu s') = 0 /\ CPUObj.X (cpu s') = 0 /\ CPUObj.Y (cpu s') = 0 /\
  FlagsObj.InterruptFlag (CPUObj.Flags (cpu s')) = true /\
  CPUObj.PC (cpu s') =
    Z.lor (Z.shiftl (eval (Memory.read 0xFFFD) s) 8)
          (eval (Memory.read 0xFFFC) s) /\
  mem s' = mem s.

(** A read of STATUS as the specification has it: bit 7 is clear afterwards
    and the reader gets the status as it was.  The PPU object has no
    write-toggle, so that part has nothing to be stated on. *)
Definition spec_status_read (a : Z) (s : Machine) : Prop :=
  Z.testbit (PPUObj.status (ppu (exec (Memory.read a) s))) 7 = false /\
  eval (Memory.read a) s = PPUObj.status (ppu s).

(** One PPU tick as the specification has it, as far as the scanline goes:
    a counter within [0,261] stays there.  The PPU object has no dot counter
    and no frame toggle, so those parts have nothing to be stated on. *)
Definition spec_tick_in_range (s : Machine) : Prop :=
  0 <= PPUObj.currentScanline (ppu s) <= 261 ->
  0 <= PPUObj.currentScanline (ppu (exec PPU.tick s)) <= 261.

(** The three grounds on which the specification rejects a ROM. *)
Definition spec_InvalidRom (romBuffer : list Z) : bool :=
  let byte i := toInt32 (romByte romBuffer i) in
  let mapper := Z.lor (Z.land (byte 7) 0xF0) (Z.shiftr (byte 6) 4) in
  let trainer := if Z.testbit (byte 6) 2 then 512 else 0 in
  (differs (romByte romBuffer 0) 0x4E || differs (romByte romBuffer 1) 0x45
   || differs (romByte romBuffer 2) 0x53 || differs (romByte romBuffer 3) 0x1A)
  || negb (mapper =? 0)
  || (Z.of_nat (List.length romBuffer) <? 16 + trainer + 16384 * byte 4).

Definition spec_loadRom (romBuffer : list Z) (s : Machine) : Prop :=
  (exists msg, eval (loadRom romBuffer) s = inl msg) <->
  spec_InvalidRom romBuffer = true.

(** The magic test of [loadRom], named. *)
Definition has_magic (romBuffer : list Z) : bool :=
  negb (differs (romByte romBuffer 0) 0x4E || differs (romByte romBuffer 1) 0x45
        || differs (romByte romBuffer 2) 0x53
        || differs (romByte romBuffer 3) 0x1A).

(** The size the copy loop of [loadRom] runs to. *)
Definition prgRomSize (romBuffer : list Z) : Z :=
  match romByte romBuffer 4 with
  | Some prgBanks => 16384 * prgBanks
  | None => 0
  end.

(** ** The index a bus address selects *)

(** The cell of [Memory.data] that [Memory.read] and [Memory.write] select
    for an address: the address cut to 16 bits, then folded by the mirror of
    its range. *)
Definition bus_index (address : Z) : Z :=
  let address := Z.land address 0xFFFF in
  if address <? 0x2000 then Z.land address 0x07FF
  else if address <? 0x4000 then Z.land address 0x2007
  else address.

(** ** The cases of the decoder *)


(** The branch cases of the decoder: the opcode and the test on the flags
    that the instruction its case calls makes. *)
Definition branch_cases : list (Z * (FlagsObj.t -> bool)) :=
  [(0x90, fun f => negb (FlagsObj.CarryFlag f));     (* BCC *)
   (0xB0, fun f => FlagsObj.CarryFlag f);            (* BCS *)
   (0xF0, fun f => FlagsObj.ZeroFlag f);             (* BEQ *)
   (0xD0, fun f => negb (FlagsObj.ZeroFlag f));      (* BNE *)
   (0x30, fun f => FlagsObj.NegativeFlag f);         (* BMI *)
   (0x10, fun f => negb (FlagsObj.NegativeFlag f));  (* BPL *)
   (0x50, fun f => FlagsObj.OverflowFlag f);         (* case 0x50 calls BVS *)
   (0x70, fun f => FlagsObj.OverflowFlag f)].        (* BVS *)

(** The offset byte of a branch read as a signed number, as [Relative]
    reads it. *)
Definition signed_offset (offset : Z) : Z :=
  if offset <? 0x80 then offset else offset - 0x100.

(** The load and store cases of the decoder with the immediate and the
    absolute addressing modes: the opcode, and the instruction or the
    register of its case. *)
Definition load_immediate_cases : list (Z * (Z -> M unit)) :=
  [(0xA9, CPU.LDA); (0xA2, CPU.LDX); (0xA0, CPU.LDY)].

Definition load_absolute_cases : list (Z * (Z -> M unit)) :=
  [(0xAD, CPU.LDA); (0xAE, CPU.LDX); (0xAC, CPU.LDY)].

Definition store_absolute_cases : list (Z * (CPUObj.t -> Z)) :=
  [(0x8D, CPUObj.A); (0x8E, CPUObj.X); (0x8C, CPUObj.Y)].

(** ** The frame loop *)





(** ** Machines that differ in the PPU object only *)

Definition with_ppu (p : PPUObj.t) (s : Machine) : Machine :=
  mkMachine (mem s) (cpu s) p.

(** A computation that neither reads nor writes the PPU object: run on a
    machine with another PPU object it returns the same value and the same
    machine, that PPU object in place. *)
Definition ppu_blind {R} (m : M R) : Prop :=
  forall s p, m (with_ppu p s) = (fst (m s), with_ppu p (snd (m s))).

(** The PPU memory array is [pm]. *)
Definition ppuMemory_is (pm : Uint8Array.t) (s : Machine) : Prop :=
  MemoryObj.ppuMemory (mem s) = pm.

(** ** Opcodes whose case stores to memory *)

(** The labels of the cases that reach [Memory.write]: the shifts and
    rotates of memory, [INC] and [DEC], the stores, the pushes of [BRK],
    [JSR], [PHA] and [PHP], and the eight [ORA] cases, which call [LSR]. *)
Definition storing_opcodes : list Z :=
  [0x0E; 0x06; 0x16; 0x1E;                          (* ASL *)
   0x00;                                            (* BRK *)
   0xCE; 0xC6; 0xD6; 0xDE;                          (* DEC *)
   0xEE; 0xE6; 0xF6; 0xFE;                          (* INC *)
   0x20;                                            (* JSR *)
   0x4E; 0x46; 0x56; 0x5E;                          (* LSR *)
   0x09; 0x0D; 0x05; 0x01; 0x11; 0x15; 0x1D; 0x19;  (* ORA cases *)
   0x48; 0x08;                                      (* PHA, PHP *)
   0x2E; 0x26; 0x36; 0x3E;                          (* ROL *)
   0x6E; 0x66; 0x76; 0x7E;                          (* ROR cases *)
   0x8D; 0x85; 0x81; 0x91; 0x95; 0x9D; 0x99;        (* STA *)
   0x8E; 0x86; 0x96;                                (* STX *)
   0x8C; 0x84; 0x94].                               (* STY *)

(** The memory object is [m]. *)
Definition mem_is (m : MemoryObj.t) (s : Machine) : Prop := mem s = m.

(** A machine about to run [opcode]: the opcode lies at [PC = 0x8000],
    every other byte of memory is 1 and the registers are 0. *)
Definition probe_machine (opcode : Z) : Machine :=
  mkMachine
    (MemoryObj.mk (fun i => if i =? 0x8000 then opcode else 1)
                  Uint8Array.make)
    (CPUObj.mk 0x00 0x00 0x00 0x8000 0xFD
       (FlagsObj.mk false false false false false false false))
    (PPUObj.mk 0 0 0 0 0 0 0 0 0).

(** ** The addressing modes that fetch from the program *)

(** Each mode with the number of bytes it takes after the opcode and the
    largest value it can return. *)
Definition addressing_modes : list (M Z * Z * Z) :=
  [(CPU.Absolute, 2, 0xFFFF); (CPU.AbsoluteX, 2, 0xFFFF);
   (CPU.AbsoluteY, 2, 0xFFFF); (CPU.Immediate, 1, 0xFF);
   (CPU.IndX, 1, 0xFFFF); (CPU.IndY, 1, 0xFFFF);
   (CPU.Indirect, 2, 0xFFFF); (CPU.ZeroPage, 1, 0xFF);
   (CPU.ZeroPageX, 1, 0xFF); (CPU.ZeroPageY, 1, 0xFF)].

(** A file of 18 bytes: the header with one PRG bank, then [LDA #5]. *)
Definition short_rom : list Z :=
  [0x4E; 0x45; 0x53; 0x1A; 1; 0; 0; 0; 0; 0; 0; 0; 0; 0; 0; 0; 0xA9; 0x05].


(** * Properties *)

(** ** Masks *)

Lemma land_ones_small (n a : Z) :
  0 <= n -> 0 <= a < 2 ^ n -> Z.land a (Z.ones n) = a.
Proof.
  intros Hn Ha. rewrite Z.land_ones by assumption. now apply Z.mod_small.
Qed.

Lemma land_FFFF (a : Z) : 0 <= a < 0x10000 -> Z.land a 0xFFFF = a.
Proof. intros H. apply (land_ones_small 16); [lia | exact H]. Qed.

Lemma land_FF (v : Z) : 0 <= v < 256 -> Z.land v 0xFF = v.
Proof. intros H. apply (land_ones_small 8); [lia | exact H]. Qed.

Lemma land_FF_mod (v : Z) : Z.land v 0xFF = v mod 256.
Proof. apply (Z.land_ones v 8). lia. Qed.

Lemma land_FF_range (v : Z) : 0 <= Z.land v 0xFF < 256.
Proof. rewrite land_FF_mod. apply Z.mod_pos_bound. lia. Qed.

(** ** The bus *)

(** A read never changes the machine, whatever the address. *)
Lemma read_state (a : Z) (s : Machine) : exec (Memory.read a) s = s.
Proof.
  unfold exec, Memory.read, bind, gets, ret.
  repeat match goal with |- context [if ?b then _ else _] => destruct b end;
    reflexivity.
Qed.

(** In the internal RAM range both operations go through index
    [address & 0x07FF]. *)
Lemma read_ram (a : Z) (s : Machine) :
  0 <= a < 0x2000 ->
  Memory.read a s = (MemoryObj.data (mem s) (Z.land a 0x07FF), s).
Proof.
  intros Ha. unfold Memory.read, bind, gets, ret, Uint8Array.get.
  rewrite land_FFFF by lia.
  destruct (Z.ltb_spec a 0x2000); [reflexivity | lia].
Qed.

Lemma write_ram (a v : Z) (s : Machine) :
  0 <= a < 0x2000 ->
  Memory.write a v s =
  (tt, mkMachine
         (MemoryObj.mk
            (Uint8Array.set (MemoryObj.data (mem s)) (Z.land a 0x07FF)
               (Z.land v 0xFF))
            (MemoryObj.ppuMemory (mem s)))
         (cpu s) (ppu s)).
Proof.
  intros Ha. unfold Memory.write, Memory.set_data, bind, gets, modify.
  rewrite land_FFFF by lia.
  destruct (Z.ltb_spec a 0x2000); [reflexivity | lia].
Qed.

Lemma write_preserves_bytes (a v : Z) (s : Machine) :
  Uint8Array.bytes (MemoryObj.data (mem s)) ->
  Uint8Array.bytes (MemoryObj.data (mem (exec (Memory.write a v) s))).
Proof.
  intros Hb. unfold exec, Memory.write, Memory.set_data, bind, gets, modify, ret.
  assert (Hset : forall i x,
    Uint8Array.bytes (Uint8Array.set (MemoryObj.data (mem s)) i (Z.land x 0xFF))).
  { intros i x j. unfold Uint8Array.set.
    destruct (j =? i); [apply land_FF_range | apply Hb]. }
  repeat match goal with |- context [if ?b then _ else _] => destruct b end;
    cbn; first [apply Hset | exact Hb].
Qed.

(** C8. In $0000-$1FFF a byte written at [a] is read back at every address
    with the same [& $07FF] index, and a read at an address with another
    index returns what it returned before the write. *)
Theorem ram_mirror_write_read (s : Machine) (a v a' : Z) :
  0 <= a < 0x2000 -> 0 <= v < 256 -> 0 <= a' < 0x2000 ->
  let s' := exec (Memory.write a v) s in
  (Z.land a' 0x07FF = Z.land a 0x07FF -> eval (Memory.read a') s' = v) /\
  (Z.land a' 0x07FF <> Z.land a 0x07FF ->
     eval (Memory.read a') s' = eval (Memory.read a') s).
Proof.
  intros Ha Hv Ha' s'. subst s'. unfold exec, eval.
  rewrite (write_ram a v s Ha), !read_ram by assumption.
  cbn [fst snd mem MemoryObj.data]. unfold Uint8Array.set.
  split; intros Hi.
  - rewrite Hi, Z.eqb_refl. rewrite (land_FF v Hv). now apply land_FF.
  - destruct (Z.eqb_spec (Z.land a' 0x07FF) (Z.land a 0x07FF)); [contradiction | reflexivity].
Qed.

Lemma ram_mirror_write_read_witness :
  let s' := exec (Memory.write 0x0005 0xAB) power_on in
  (Z.land 0x1805 0x07FF = Z.land 0x0005 0x07FF ->
     eval (Memory.read 0x1805) s' = 0xAB) /\
  (Z.land 0x1805 0x07FF <> Z.land 0x0005 0x07FF ->
     eval (Memory.read 0x1805) s' = eval (Memory.read 0x1805) power_on).
Proof.
  apply (ram_mirror_write_read power_on 0x0005 0xAB 0x1805); lia.
Defined.

(** C10. A bus read at any 16-bit address returns a byte and hands back the
    machine it was given: CPU, both memory arrays and the PPU registers are
    the same afterwards, in $2000-$3FFF as anywhere else. *)
Theorem read_pure_total (s : Machine) (a : Z) :
  Uint8Array.bytes (MemoryObj.data (mem s)) ->
  0 <= a < 0x10000 ->
  exists v, Memory.read a s = (v, s) /\ 0 <= v < 256.
Proof.
  intros Hb Ha. unfold Memory.read, bind, gets, ret, Uint8Array.get.
  repeat match goal with |- context [if ?b then _ else _] => destruct b end;
    eexists; (split; [reflexivity | first [apply Hb | lia]]).
Qed.

Lemma read_pure_total_witness :
  exists v, Memory.read 0x2002 power_on = (v, power_on) /\ 0 <= v < 256.
Proof.
  apply (read_pure_total power_on 0x2002).
  - intros i. cbn. unfold Uint8Array.make. lia.
  - lia.
Defined.

(** ** What the CPU preserves *)

Section Preserves.
Variable P : Machine -> Prop.

Lemma preserves_ret {R} (r : R) : preserves P (ret r).
Proof. intros s H. exact H. Qed.

Lemma preserves_gets {R} (f : Machine -> R) : preserves P (gets f).
Proof. intros s H. exact H. Qed.

Lemma preserves_bind {R S} (m : M R) (k : R -> M S) :
  preserves P m -> (forall r, preserves P (k r)) -> preserves P (bind m k).
Proof.
  intros Hm Hk s H. unfold exec, bind.
  specialize (Hm s H). unfold exec in Hm.
  destruct (m s) as [r s1]. now apply Hk.
Qed.

Lemma preserves_read (a : Z) : preserves P (Memory.read a).
Proof. intros s H. now rewrite read_state. Qed.
End Preserves.

Lemma upd_keeps_bytes (f : CPUObj.t -> CPUObj.t) :
  preserves bytes_ok (CPU.upd f).
Proof. intros s H. exact H. Qed.

Lemma write_keeps_bytes (a v : Z) : preserves bytes_ok (Memory.write a v).
Proof. intros s H. now apply write_preserves_bytes. Qed.

Lemma upd_keeps_acc (a : Z) (f : CPUObj.t -> CPUObj.t) :
  (forall c, CPUObj.A (f c) = CPUObj.A c) -> preserves (acc_is a) (CPU.upd f).
Proof. intros Hf s H. unfold acc_is in *. cbn. now rewrite Hf. Qed.

Lemma write_keeps_acc (a addr v : Z) :
  preserves (acc_is a) (Memory.write addr v).
Proof.
  intros s H. unfold acc_is, exec, Memory.write, Memory.set_data in *.
  unfold bind, gets, modify, ret.
  repeat match goal with |- context [if ?b then _ else _] => destruct b end;
    exact H.
Qed.

Create HintDb cpu discriminated.
#[local] Hint Unfold CPU.setZN CPU.incPC CPU.incSP CPU.decSP
  CPU.getA CPU.getX CPU.getY CPU.getPC CPU.getSP CPU.getFlag
  CPU.setA CPU.setX CPU.setY CPU.setPC CPU.setSP
  CPU.setBreakFlag CPU.setCarryFlag CPU.setDecimalModeFlag
  CPU.setInterruptFlag CPU.setNegativeFlag CPU.setOverflowFlag
  CPU.setZeroFlag CPU.updFlags CPU.getStatusFlags CPU.setFlags
  CPU.readMemory CPU.writeMemory
  CPU.Absolute CPU.AbsoluteX CPU.AbsoluteY CPU.Accumulator CPU.Immediate
  CPU.IndX CPU.IndY CPU.Indirect CPU.Relative CPU.ZeroPage CPU.ZeroPageX
  CPU.ZeroPageY
  CPU.ADC CPU.AND CPU.ASL_A CPU.ASL CPU.BCC CPU.BCS CPU.BEQ CPU.BNE CPU.BMI
  CPU.BPL CPU.BVS CPU.BVC CPU.BIT CPU.BRK CPU.CLC CPU.CLD CPU.CLI CPU.CLV
  CPU.CMP CPU.CPX CPU.CPY CPU.DEC CPU.DEX CPU.DEY CPU.EOR CPU.INC CPU.INX
  CPU.INY CPU.JMP_ABS CPU.JMP_IND CPU.JSR CPU.LDA CPU.LDX CPU.LDY CPU.LSR_A
  CPU.LSR CPU.NOP CPU.ORA CPU.PHA CPU.PHP CPU.PLA CPU.PLP CPU.ROL_A CPU.ROL
  CPU.ROR_A CPU.ROR CPU.RTI CPU.RTS CPU.SBC CPU.SEC CPU.SED CPU.SEI CPU.STA
  CPU.STX CPU.STY CPU.TAX CPU.TAY CPU.TSX CPU.TXA CPU.TXS CPU.TYA : cpu.

(** Goes through a computation step by step; what is left is a step that
    does not preserve the property, or one the tactic does not know. *)
Ltac preserve :=
  repeat lazymatch goal with
    | |- preserves _ (bind _ _) => apply preserves_bind; [| intro]
    | |- preserves _ (ret _) => apply preserves_ret
    | |- preserves _ (gets _) => apply preserves_gets
    | |- preserves _ (Memory.read _) => apply preserves_read
    | |- preserves bytes_ok (CPU.upd _) => apply upd_keeps_bytes
    | |- preserves bytes_ok (Memory.write _ _) => apply write_keeps_bytes
    | |- preserves (acc_is _) (CPU.upd _) =>
        apply upd_keeps_acc; intro; reflexivity
    | |- preserves (acc_is _) (Memory.write _ _) => apply write_keeps_acc
    | |- preserves _ (if ?b then _ else _) => destruct b
    | |- preserves _ _ => progress autounfold with cpu
    end.

(** Whatever the opcode, its case stores to memory through [Memory.write]
    only, so bytes stay bytes. *)
Lemma switch_keeps_bytes (opcode : Z) : preserves bytes_ok (CPU.switch opcode).
Proof.
  unfold CPU.switch.
  repeat match goal with
         | |- context [match ?p with _ => _ end] => is_var p; destruct p
         end.
  all: preserve.
Qed.

Lemma decodeAndExecute_keeps_bytes : preserves bytes_ok CPU.decodeAndExecute.
Proof.
  unfold CPU.decodeAndExecute. preserve. apply switch_keeps_bytes.
Qed.

Lemma power_on_bytes : bytes_ok power_on.
Proof. intros i. cbn. unfold Uint8Array.make. lia. Qed.

(** Every machine the CPU reaches from power-on holds bytes in memory. *)
Lemma run_bytes (n : nat) : bytes_ok (exec (run n) power_on).
Proof.
  assert (H : preserves bytes_ok (run n)).
  { induction n as [| n IH]; cbn [run].
    - apply preserves_ret.
    - apply preserves_bind;
        [apply decodeAndExecute_keeps_bytes | intros _; exact IH]. }
  apply H, power_on_bytes.
Qed.

(** ** Single bits *)

Lemma land_pow2 (x n : Z) :
  0 <= n -> Z.land x (2 ^ n) = if Z.testbit x n then 2 ^ n else 0.
Proof.
  intros Hn. apply Z.bits_inj'. intros i Hi.
  rewrite Z.land_spec, Z.pow2_bits_eqb by assumption.
  destruct (Z.eqb_spec n i) as [<- | Hne].
  - rewrite andb_true_r. destruct (Z.testbit x n).
    + now rewrite Z.pow2_bits_true.
    + now rewrite Z.bits_0.
  - rewrite andb_false_r. destruct (Z.testbit x n).
    + now rewrite Z.pow2_bits_false.
    + now rewrite Z.bits_0.
Qed.

Lemma land_0x80 (x : Z) : Z.land x 0x80 = if Z.testbit x 7 then 0x80 else 0.
Proof. apply (land_pow2 x 7). lia. Qed.

Lemma nonzero_land_0x80 (x : Z) : nonzero (Z.land x 0x80) = Z.testbit x 7.
Proof. rewrite land_0x80. now destruct (Z.testbit x 7). Qed.

Lemma testbit7_land_FF (x : Z) : Z.testbit (Z.land x 0xFF) 7 = Z.testbit x 7.
Proof.
  rewrite Z.land_spec. change (Z.testbit 0xFF 7) with true. apply andb_true_r.
Qed.

Lemma testbit7_mod_256 (x : Z) : Z.testbit (x mod 256) 7 = Z.testbit x 7.
Proof. rewrite <- land_FF_mod. apply testbit7_land_FF. Qed.

Lemma testbit7_add_256 (x : Z) : Z.testbit (x + 256) 7 = Z.testbit x 7.
Proof.
  rewrite <- (testbit7_mod_256 (x + 256)), <- (testbit7_mod_256 x).
  f_equal. replace (x + 256) with (x + 1 * 256) by lia. apply Z.mod_add. lia.
Qed.

(** The 8-bit complement [(~M) & 0xFF] of a byte. *)
Lemma lnot_byte (m : Z) : 0 <= m < 256 -> Z.land (Z.lnot m) 0xFF = 255 - m.
Proof.
  intros Hm. rewrite land_FF_mod. unfold Z.lnot.
  symmetry. apply (Z.mod_unique_pos _ _ (-1)); lia.
Qed.

(** ** Running CPU code *)

Ltac unfold_cpu :=
  unfold CPU.setZN, CPU.incPC, CPU.incSP, CPU.decSP,
    CPU.getA, CPU.getX, CPU.getY, CPU.getPC, CPU.getSP, CPU.getFlag,
    CPU.setA, CPU.setX, CPU.setY, CPU.setPC, CPU.setSP,
    CPU.setBreakFlag, CPU.setCarryFlag, CPU.setDecimalModeFlag,
    CPU.setInterruptFlag, CPU.setNegativeFlag, CPU.setOverflowFlag,
    CPU.setZeroFlag, CPU.updFlags, CPU.upd.

Ltac project :=
  cbn [fst snd mem cpu ppu
       CPUObj.A CPUObj.X CPUObj.Y CPUObj.PC CPUObj.SP CPUObj.Flags
       FlagsObj.BreakFlag FlagsObj.CarryFlag FlagsObj.DecimalModeFlag
       FlagsObj.InterruptFlag FlagsObj.NegativeFlag FlagsObj.OverflowFlag
       FlagsObj.ZeroFlag MemoryObj.data MemoryObj.ppuMemory].

Lemma exec_bind {R S} (m : M R) (k : R -> M S) (s : Machine) :
  exec (bind m k) s = exec (k (eval m s)) (exec m s).
Proof. unfold exec, eval, bind. now destruct (m s). Qed.

Lemma eval_bind {R S} (m : M R) (k : R -> M S) (s : Machine) :
  eval (bind m k) s = eval (k (eval m s)) (exec m s).
Proof. unfold exec, eval, bind. now destruct (m s). Qed.

Lemma exec_run_S (n : nat) (s : Machine) :
  exec (run (S n)) s = exec (run n) (exec CPU.decodeAndExecute s).
Proof. cbn [run]. apply exec_bind. Qed.

Lemma read_eq (a : Z) (s : Machine) :
  Memory.read a s = (eval (Memory.read a) s, s).
Proof.
  rewrite <- (read_state a s) at 3. unfold eval, exec.
  now destruct (Memory.read a s).
Qed.

(** What a read returns depends on the memory object only. *)
Lemma read_mem_only (a : Z) (s1 s2 : Machine) :
  mem s1 = mem s2 -> eval (Memory.read a) s1 = eval (Memory.read a) s2.
Proof.
  intros H. unfold eval, Memory.read, bind, gets, ret. rewrite H.
  repeat match goal with |- context [if ?b then _ else _] => destruct b end;
    reflexivity.
Qed.

(** Fetching: the opcode is read at [PC], [PC] moves on by one, and the
    case of the opcode runs. *)
Lemma decodeAndExecute_fetch (s : Machine) :
  CPU.decodeAndExecute s =
  CPU.switch (eval (Memory.read (CPUObj.PC (cpu s))) s)
             (exec (CPU.setPC (CPUObj.PC (cpu s) + 1)) s).
Proof.
  unfold CPU.decodeAndExecute, CPU.readMemory. unfold_cpu.
  unfold bind, gets, modify, exec. rewrite read_eq. reflexivity.
Qed.

(** An opcode whose case resolves its operand with [Immediate]: the operand
    is the byte after the opcode and [PC] ends two bytes further. *)
Lemma exec_step_immediate (op : Z) (instr : Z -> M unit) (s : Machine) :
  eval (Memory.read (CPUObj.PC (cpu s))) s = op ->
  CPU.switch op = (operand <- CPU.Immediate ;; instr operand) ->
  exec CPU.decodeAndExecute s =
  exec (instr (eval (Memory.read (CPUObj.PC (cpu s) + 1)) s))
       (exec (CPU.setPC (CPUObj.PC (cpu s) + 2)) s).
Proof.
  intros Hop Hsw. unfold exec at 1.
  rewrite decodeAndExecute_fetch, Hop, Hsw.
  unfold CPU.Immediate, CPU.readMemory. unfold_cpu.
  unfold bind, gets, modify, ret, exec. cbn [snd cpu mem ppu CPUObj.PC].
  rewrite read_eq. cbn [snd cpu mem ppu CPUObj.PC].
  replace (CPUObj.PC (cpu s) + 1 + 1) with (CPUObj.PC (cpu s) + 2) by lia.
  do 2 f_equal. now apply read_mem_only.
Qed.

Lemma switch_LDA_immediate :
  CPU.switch 0xA9 = (operand <- CPU.Immediate ;; CPU.LDA operand).
Proof. reflexivity. Qed.

Lemma switch_ADC_immediate :
  CPU.switch 0x69 = (operand <- CPU.Immediate ;; CPU.ADC operand).
Proof. reflexivity. Qed.

Section Results.
Import CPUObj FlagsObj.
Variable s : Machine.

Lemma exec_setPC (v : Z) :
  exec (CPU.setPC v) s =
  mkMachine (mem s)
    (CPUObj.mk (A (cpu s)) (X (cpu s)) (Y (cpu s)) v (SP (cpu s))
       (Flags (cpu s)))
    (ppu s).
Proof. reflexivity. Qed.

Lemma exec_reset :
  exec CPU.reset s =
  mkMachine (mem s)
    (CPUObj.mk 0x00 0x00 0x00 0x8000 0xFD (Flags (cpu s)))
    (ppu s).
Proof. reflexivity. Qed.

Lemma exec_LDA (v : Z) :
  exec (CPU.LDA v) s =
  let f := Flags (cpu s) in
  mkMachine (mem s)
    (CPUObj.mk v (X (cpu s)) (Y (cpu s)) (PC (cpu s)) (SP (cpu s))
       (FlagsObj.mk (BreakFlag f) (CarryFlag f) (DecimalModeFlag f)
          (InterruptFlag f) (nonzero (Z.land v 0x80)) (OverflowFlag f)
          (v =? 0)))
    (ppu s).
Proof. reflexivity. Qed.

Lemma exec_ADC (operand : Z) :
  exec (CPU.ADC operand) s =
  let f := Flags (cpu s) in
  let result := A (cpu s) + operand + (if CarryFlag f then 1 else 0) in
  mkMachine (mem s)
    (CPUObj.mk (Z.land result 0xFF) (X (cpu s)) (Y (cpu s)) (PC (cpu s))
       (SP (cpu s))
       (FlagsObj.mk (BreakFlag f) (result >? 0xFF) (DecimalModeFlag f)
          (InterruptFlag f) (nonzero (Z.land result 0x80))
          (nonzero (Z.land (Z.land (Z.lxor (A (cpu s)) result)
                                   (Z.lxor operand result)) 0x80))
          (Z.land result 0xFF =? 0)))
    (ppu s).
Proof. reflexivity. Qed.

Lemma exec_SBC (operand : Z) :
  exec (CPU.SBC operand) s =
  let f := Flags (cpu s) in
  let temp := A (cpu s) - operand - (if CarryFlag f then 0 else 1) in
  mkMachine (mem s)
    (CPUObj.mk (Z.land temp 0xFF) (X (cpu s)) (Y (cpu s)) (PC (cpu s))
       (SP (cpu s))
       (FlagsObj.mk (BreakFlag f) (temp >=? 0) (DecimalModeFlag f)
          (InterruptFlag f) (nonzero (Z.land (Z.land temp 0xFF) 0x80))
          (nonzero (Z.land (Z.lxor (A (cpu s)) temp) 0x80)
           && nonzero (Z.land (Z.lxor (A (cpu s)) operand) 0x80))
          (Z.land temp 0xFF =? 0)))
    (ppu s).
Proof. reflexivity. Qed.
End Results.

(** ** ADC *)

(** C1. [ADC] leaves the low 8 bits of [A + M + C] in the accumulator, the
    carry as [sum > $FF], the overflow as
    [((A ^ sum) & (M ^ sum) & $80) != 0], N as bit 7 of the result and Z as
    [result == 0]; and on a machine that holds [$A9 $05 $69 $03] at $0000
    with [PC = 0] and the carry clear, two instructions leave [A = $08] with
    Z, N, C and V clear. *)
Theorem ADC_adds_with_carry (s : Machine) (M : Z) (s1 : Machine) :
  let a := CPUObj.A (cpu s) in
  let c := if FlagsObj.CarryFlag (CPUObj.Flags (cpu s)) then 1 else 0 in
  let sum := a + M + c in
  let s' := exec (CPU.ADC M) s in
  let f' := CPUObj.Flags (cpu s') in
  let s2 := exec (run 2) s1 in
  let f2 := CPUObj.Flags (cpu s2) in
  0 <= a < 256 -> 0 <= M < 256 ->
  eval (Memory.read 0x0000) s1 = 0xA9 -> eval (Memory.read 0x0001) s1 = 0x05 ->
  eval (Memory.read 0x0002) s1 = 0x69 -> eval (Memory.read 0x0003) s1 = 0x03 ->
  CPUObj.PC (cpu s1) = 0x0000 ->
  FlagsObj.CarryFlag (CPUObj.Flags (cpu s1)) = false ->
  (CPUObj.A (cpu s') = sum mod 256 /\
   FlagsObj.CarryFlag f' = (sum >? 0xFF) /\
   FlagsObj.OverflowFlag f' =
     nonzero (Z.land (Z.land (Z.lxor a sum) (Z.lxor M sum)) 0x80) /\
   FlagsObj.NegativeFlag f' = Z.testbit (CPUObj.A (cpu s')) 7 /\
   FlagsObj.ZeroFlag f' = (CPUObj.A (cpu s') =? 0)) /\
  (CPUObj.A (cpu s2) = 0x08 /\
   FlagsObj.ZeroFlag f2 = false /\ FlagsObj.NegativeFlag f2 = false /\
   FlagsObj.CarryFlag f2 = false /\ FlagsObj.OverflowFlag f2 = false).
Proof.
  intros a c sum s' f' s2 f2 Ha HM H0 H1 H2 H3 Hpc Hc. split.
  - subst f' s'. rewrite exec_ADC. cbv zeta. project.
    fold a. fold c. fold sum.
    repeat split.
    + apply land_FF_mod.
    + now rewrite testbit7_land_FF, nonzero_land_0x80.
  - subst f2 s2. rewrite !exec_run_S.
    rewrite (exec_step_immediate 0xA9 CPU.LDA s1
               ltac:(rewrite Hpc; exact H0) switch_LDA_immediate).
    rewrite Hpc. change (0 + 1) with 1. change (0 + 2) with 2. rewrite H1.
    set (sA := exec (CPU.LDA 5) (exec (CPU.setPC 2) s1)).
    assert (HmA : mem sA = mem s1) by reflexivity.
    assert (HpcA : CPUObj.PC (cpu sA) = 2) by reflexivity.
    assert (HopA : eval (Memory.read (CPUObj.PC (cpu sA))) sA = 0x69).
    { rewrite HpcA, (read_mem_only 2 sA s1 HmA). exact H2. }
    rewrite (exec_step_immediate 0x69 CPU.ADC sA HopA switch_ADC_immediate).
    rewrite HpcA. change (2 + 1) with 3. change (2 + 2) with 4.
    rewrite (read_mem_only 3 sA s1 HmA), H3.
    subst sA. rewrite exec_ADC, exec_LDA, !exec_setPC. cbv zeta.
    cbn [run exec ret]. project. rewrite Hc.
    repeat split; reflexivity.
Qed.

Lemma ADC_adds_with_carry_witness :
  CPUObj.A (cpu (exec (CPU.ADC 0x03) (exec (CPU.setA 0x05) power_on))) = 8 /\
  CPUObj.A (cpu (exec (run 2)
    (exec (Memory.write 0 0xA9 ;; Memory.write 1 0x05 ;;
           Memory.write 2 0x69 ;; Memory.write 3 0x03 ;; CPU.setPC 0)
          power_on))) = 0x08.
Proof.
  pose proof (ADC_adds_with_carry (exec (CPU.setA 0x05) power_on) 0x03
    (exec (Memory.write 0 0xA9 ;; Memory.write 1 0x05 ;;
           Memory.write 2 0x69 ;; Memory.write 3 0x03 ;; CPU.setPC 0)
          power_on)) as H.
  cbv zeta in H.
  specialize (H ltac:(cbn; lia) ltac:(lia)
                ltac:(vm_compute; reflexivity) ltac:(vm_compute; reflexivity)
                ltac:(vm_compute; reflexivity) ltac:(vm_compute; reflexivity)
                ltac:(vm_compute; reflexivity) ltac:(vm_compute; reflexivity)).
  destruct H as [[HA _] [HA2 _]].
  split; [exact HA | exact HA2].
Defined.

(** ** SBC *)

Lemma land_FF_add_256 (x y : Z) : y = x + 256 -> Z.land y 0xFF = Z.land x 0xFF.
Proof.
  intros ->. rewrite !land_FF_mod.
  replace (x + 256) with (x + 1 * 256) by lia. apply Z.mod_add. lia.
Qed.

Lemma testbit7_lnot_byte (m : Z) :
  Z.testbit (255 - m) 7 = negb (Z.testbit m 7).
Proof.
  replace (255 - m) with (Z.lnot m + 256) by (unfold Z.lnot; lia).
  rewrite testbit7_add_256. apply Z.lnot_spec. lia.
Qed.

(** C2. [SBC M] is [ADC] of the byte complement of [M]: same accumulator,
    same flags, same everything else.  The accumulator is the low 8 bits of
    [A - M - (1 - C)] and the overflow flag is
    [((A ^ result) & ((~M) ^ result) & $80) != 0] for that 8-bit result. *)
Theorem SBC_is_ADC_of_complement (s : Machine) (M : Z) :
  let a := CPUObj.A (cpu s) in
  let c := if FlagsObj.CarryFlag (CPUObj.Flags (cpu s)) then 1 else 0 in
  let result := (a - M - (1 - c)) mod 256 in
  let s' := exec (CPU.SBC M) s in
  0 <= a < 256 -> 0 <= M < 256 ->
  s' = exec (CPU.ADC (Z.land (Z.lnot M) 0xFF)) s /\
  CPUObj.A (cpu s') = result /\
  FlagsObj.OverflowFlag (CPUObj.Flags (cpu s')) =
    nonzero (Z.land (Z.land (Z.lxor a result) (Z.lxor (Z.lnot M) result)) 0x80).
Proof.
  intros a c result s' Ha HM. subst s'.
  rewrite exec_SBC, exec_ADC, (lnot_byte M HM). cbv zeta. project. fold a.
  set (temp := a - M - (if FlagsObj.CarryFlag (CPUObj.Flags (cpu s)) then 0 else 1)).
  set (sum := a + (255 - M) + (if FlagsObj.CarryFlag (CPUObj.Flags (cpu s)) then 1 else 0)).
  assert (Hsum : sum = temp + 256).
  { subst sum temp. destruct (FlagsObj.CarryFlag (CPUObj.Flags (cpu s))); lia. }
  assert (Hres : result = Z.land temp 0xFF).
  { subst result temp c. rewrite land_FF_mod. f_equal.
    destruct (FlagsObj.CarryFlag (CPUObj.Flags (cpu s))); lia. }
  assert (Hlow : Z.land sum 0xFF = Z.land temp 0xFF)
    by (now apply land_FF_add_256).
  assert (Hbit : Z.testbit sum 7 = Z.testbit temp 7)
    by (rewrite Hsum; apply testbit7_add_256).
  split; [| split].
  - f_equal. f_equal; [now rewrite Hlow |]. f_equal.
    + rewrite Hsum, Z.gtb_ltb, Z.geb_leb.
      destruct (Z.ltb_spec 255 (temp + 256)), (Z.leb_spec 0 temp);
        reflexivity || lia.
    + now rewrite !nonzero_land_0x80, testbit7_land_FF, Hbit.
    + rewrite !nonzero_land_0x80.
      rewrite Z.land_spec, !Z.lxor_spec, Hbit, testbit7_lnot_byte.
      destruct (Z.testbit a 7), (Z.testbit temp 7), (Z.testbit M 7);
        reflexivity.
    + now rewrite Hlow.
  - symmetry. exact Hres.
  - rewrite Hres, !nonzero_land_0x80.
    rewrite Z.land_spec, !Z.lxor_spec, testbit7_land_FF.
    rewrite Z.lnot_spec by lia.
    destruct (Z.testbit a 7), (Z.testbit temp 7), (Z.testbit M 7);
      reflexivity.
Qed.

Lemma SBC_is_ADC_of_complement_witness :
  let s := exec (CPU.setA 0x05 ;; CPU.SEC) power_on in
  exec (CPU.SBC 0x03) s = exec (CPU.ADC (Z.land (Z.lnot 0x03) 0xFF)) s /\
  CPUObj.A (cpu (exec (CPU.SBC 0x03) s)) = 0x02.
Proof.
  intros s.
  destruct (SBC_is_ADC_of_complement s 0x03) as [Hs [HA _]];
    [cbn; lia | lia |].
  split; [exact Hs | exact HA].
Defined.

(** ** ORA *)

(** The cases the source labels ORA leave the accumulator alone. *)
Lemma ORA_cases_keep_acc (a op : Z) :
  In op [0x09; 0x0D; 0x05; 0x01; 0x11; 0x15; 0x1D; 0x19] ->
  preserves (acc_is a) (CPU.switch op).
Proof.
  intros Hin. cbn [In] in Hin.
  repeat (destruct Hin as [<- | Hin];
          [cbv beta iota delta [CPU.switch]; preserve |]).
  contradiction.
Qed.

(** C3. Each of the eight cases the source labels ORA resolves its operand
    and hands it to [LSR], which takes it as an address; [ORA] itself is never
    called, and on every machine the accumulator is after the instruction
    what it was before.  On [ora_machine] ([ORA #$0F], [A = $F0], $03 at
    $000F) the accumulator keeps $F0 where [A | M] is $FF, the byte at $000F
    is shifted to $01, the carry is set and N stays clear. *)
Theorem ORA_cases_call_LSR :
  (CPU.switch 0x09 = (operand <- CPU.Immediate ;; CPU.LSR operand) /\
   CPU.switch 0x0D = (operand <- CPU.Absolute ;; CPU.LSR operand) /\
   CPU.switch 0x05 = (operand <- CPU.ZeroPage ;; CPU.LSR operand) /\
   CPU.switch 0x01 = (operand <- CPU.IndX ;; CPU.LSR operand) /\
   CPU.switch 0x11 = (operand <- CPU.IndY ;; CPU.LSR operand) /\
   CPU.switch 0x15 = (operand <- CPU.ZeroPageX ;; CPU.LSR operand) /\
   CPU.switch 0x1D = (operand <- CPU.AbsoluteX ;; CPU.LSR operand) /\
   CPU.switch 0x19 = (operand <- CPU.AbsoluteY ;; CPU.LSR operand)) /\
  (forall s op,
     In op [0x09; 0x0D; 0x05; 0x01; 0x11; 0x15; 0x1D; 0x19] ->
     eval (Memory.read (CPUObj.PC (cpu s))) s = op ->
     CPUObj.A (cpu (exec CPU.decodeAndExecute s)) = CPUObj.A (cpu s)) /\
  (let s := ora_machine in
   let s' := exec CPU.decodeAndExecute s in
   eval (Memory.read (CPUObj.PC (cpu s))) s = 0x09 /\
   eval (Memory.read (CPUObj.PC (cpu s) + 1)) s = 0x0F /\
   CPUObj.A (cpu s) = 0xF0 /\
   Z.lor (CPUObj.A (cpu s)) 0x0F = 0xFF /\
   CPUObj.A (cpu s') = 0xF0 /\
   FlagsObj.NegativeFlag (CPUObj.Flags (cpu s')) = false /\
   FlagsObj.CarryFlag (CPUObj.Flags (cpu s)) = false /\
   FlagsObj.CarryFlag (CPUObj.Flags (cpu s')) = true /\
   eval (Memory.read 0x000F) s = 0x03 /\
   eval (Memory.read 0x000F) s' = 0x01).
Proof.
  split; [| split].
  - repeat split; reflexivity.
  - intros s op Hin Hop. unfold exec.
    rewrite decodeAndExecute_fetch, Hop.
    apply (ORA_cases_keep_acc (CPUObj.A (cpu s)) op Hin). reflexivity.
  - vm_compute. repeat split; reflexivity.
Qed.

(** ** JMP indirect *)

Lemma eval_deref_page_bug (ptr : Z) (s : Machine) :
  eval (deref_page_bug ptr) s =
  Z.lor (Z.shiftl
           (eval (Memory.read
                    (Z.lor (Z.land ptr 0xFF00) (Z.land (ptr + 1) 0xFF))) s) 8)
        (eval (Memory.read ptr) s).
Proof.
  unfold deref_page_bug. rewrite !eval_bind. unfold exec.
  now rewrite !read_eq.
Qed.

Lemma switch_JMP_indirect :
  CPU.switch 0x6C = (operand <- CPU.Indirect ;; CPU.JMP_IND operand).
Proof. reflexivity. Qed.

(** Where the opcode at [PC] is $6C, [PC] ends at the word the page-bug
    dereference finds at the address the page-bug dereference finds at the
    pointer. *)
Lemma JMP_indirect_lands (s : Machine) :
  let pc := CPUObj.PC (cpu s) in
  let ptr := Z.lor (Z.shiftl (eval (Memory.read (pc + 1 + 1)) s) 8)
                   (eval (Memory.read (pc + 1)) s) in
  eval (Memory.read pc) s = 0x6C ->
  CPUObj.PC (cpu (exec CPU.decodeAndExecute s)) =
  eval (deref_page_bug (eval (deref_page_bug ptr) s)) s.
Proof.
  intros pc ptr Hop. unfold exec at 1.
  rewrite decodeAndExecute_fetch. fold pc. rewrite Hop, switch_JMP_indirect.
  rewrite !eval_deref_page_bug.
  unfold CPU.Indirect, CPU.JMP_IND, CPU.readMemory. unfold_cpu.
  unfold bind, gets, modify, ret, exec.
  repeat (rewrite read_eq; cbn [fst snd cpu mem ppu CPUObj.PC]).
  repeat match goal with
         | |- context [eval (Memory.read ?a) (mkMachine ?m ?c ?p)] =>
             rewrite (read_mem_only a (mkMachine m c p) s eq_refl)
         end.
  fold pc. fold ptr. reflexivity.
Qed.

(** C4. The case of opcode $6C resolves the pointer once in [Indirect] and
    hands the result to [JMP_IND], which resolves it again: [PC] ends at the
    second dereference, on every machine.  On [jmp_machine] the pointer $0010
    holds $1234, yet [PC] ends at the $5678 stored at $1234; on the scenario
    of the specification [PC] ends at $0000, not $1234 (there the opcode
    written at $1000 lands on $0000, its mirror). *)
Theorem JMP_indirect_dereferences_twice :
  CPU.switch 0x6C = (operand <- CPU.Indirect ;; CPU.JMP_IND operand) /\
  (forall s,
     let pc := CPUObj.PC (cpu s) in
     let ptr := Z.lor (Z.shiftl (eval (Memory.read (pc + 1 + 1)) s) 8)
                      (eval (Memory.read (pc + 1)) s) in
     eval (Memory.read pc) s = 0x6C ->
     CPUObj.PC (cpu (exec CPU.decodeAndExecute s)) =
     eval (deref_page_bug (eval (deref_page_bug ptr) s)) s) /\
  (let s := jmp_machine in
   let ptr := 0x0010 in
   eval (Memory.read (CPUObj.PC (cpu s))) s = 0x6C /\
   eval (Memory.read (CPUObj.PC (cpu s) + 1)) s = Z.land ptr 0xFF /\
   eval (Memory.read (CPUObj.PC (cpu s) + 2)) s = Z.shiftr ptr 8 /\
   eval (deref_page_bug ptr) s = 0x1234 /\
   CPUObj.PC (cpu (exec CPU.decodeAndExecute s)) = 0x5678) /\
  (let s := jmp_scenario_machine in
   CPUObj.PC (cpu s) = 0x1000 /\
   eval (Memory.read 0x1000) s = 0x6C /\
   eval (Memory.read 0x0000) s = 0x6C /\
   CPUObj.PC (cpu (exec (run 1) s)) = 0x0000).
Proof.
  split; [reflexivity |]. split; [exact JMP_indirect_lands |].
  vm_compute. repeat split; reflexivity.
Qed.

(** ** Reset *)

(** C5, as the specification words it, fails on a machine whose reset vector
    holds $C000: [PC] becomes $8000 and the I flag stays clear. *)
Lemma reset_ignores_vector : ~ spec_reset vector_machine.
Proof.
  unfold spec_reset. intros (_ & _ & _ & _ & HI & _).
  vm_compute in HI. discriminate HI.
Qed.

(** C5, amended. [reset] sets [SP] to $FD, [A], [X] and [Y] to 0 and [PC] to
    the constant $8000, whatever the vector at $FFFC/$FFFD holds; the flags,
    I among them, both memory arrays and the PPU are as they were. *)
Theorem reset_sets_registers (s : Machine) :
  let s' := exec CPU.reset s in
  CPUObj.SP (cpu s') = 0xFD /\
  CPUObj.A (cpu s') = 0 /\ CPUObj.X (cpu s') = 0 /\ CPUObj.Y (cpu s') = 0 /\
  CPUObj.PC (cpu s') = 0x8000 /\
  CPUObj.Flags (cpu s') = CPUObj.Flags (cpu s) /\
  mem s' = mem s /\ ppu s' = ppu s.
Proof.
  cbv zeta. rewrite exec_reset. project. repeat split.
Qed.

(** ** Reading STATUS over the bus *)

(** In $2000-$3FFF bit 13 is set, so [address & 0x2007] is $2000 plus the
    register number. *)
Lemma land_0x2007 (a : Z) :
  0x2000 <= a < 0x4000 -> Z.land a 0x2007 = Z.lor 0x2000 (Z.land a 7).
Proof.
  intros Ha. change 0x2007 with (Z.lor 0x2000 7).
  rewrite Z.land_lor_distr_r. f_equal.
  change 0x2000 with (2 ^ 13). rewrite land_pow2 by lia.
  replace (Z.testbit a 13) with true; [reflexivity |].
  symmetry. apply Z.testbit_true; [lia |].
  replace (a / 2 ^ 13) with 1; [reflexivity |].
  apply (Z.div_unique a (2 ^ 13) 1 (a - 2 ^ 13)); lia.
Qed.

Lemma read_ppu_range (a : Z) (s : Machine) :
  0x2000 <= a < 0x4000 ->
  Memory.read a s = (MemoryObj.data (mem s) (Z.land a 0x2007), s).
Proof.
  intros Ha. unfold Memory.read, bind, gets, ret, Uint8Array.get.
  rewrite land_FFFF by lia.
  destruct (Z.ltb_spec a 0x2000); [lia |].
  destruct (Z.geb_spec a 0x2000); [| lia].
  destruct (Z.ltb_spec a 0x4000); [reflexivity | lia].
Qed.

Lemma write_ppu_range (a v : Z) (s : Machine) :
  0x2000 <= a < 0x4000 ->
  Memory.write a v s =
  (tt, mkMachine
         (MemoryObj.mk
            (Uint8Array.set (MemoryObj.data (mem s)) (Z.land a 0x2007)
               (Z.land v 0xFF))
            (MemoryObj.ppuMemory (mem s)))
         (cpu s) (ppu s)).
Proof.
  intros Ha. unfold Memory.write, Memory.set_data, bind, gets, modify.
  rewrite land_FFFF by lia.
  destruct (Z.ltb_spec a 0x2000); [lia |].
  destruct (Z.geb_spec a 0x2000); [| lia].
  destruct (Z.ltb_spec a 0x4000); [reflexivity | lia].
Qed.

(** C6, as the specification words it, fails once the program has stored
    $80 to $2002: the read returns that $80, while the STATUS field of the
    PPU is $00; and the byte a second read returns still has bit 7 set. *)
Lemma status_read_returns_stored_byte :
  ~ spec_status_read 0x2002 status_machine /\
  Z.testbit
    (eval (Memory.read 0x2002) (exec (Memory.read 0x2002) status_machine)) 7
  = true.
Proof.
  split; [| reflexivity].
  unfold spec_status_read. intros [_ H]. vm_compute in H. discriminate H.
Qed.

(** C6, amended. A bus read of $2002 or of one of its mirrors returns the
    byte of the CPU memory array at index $2002, which is the low 8 bits of
    whatever the bus last wrote to $2002 or a mirror, and not the STATUS
    field of the PPU; [PPU.readRegister] at $2002, which the bus does not
    call, returns the STATUS field as it is on entry. *)
Theorem status_read_is_memory (s : Machine) (a b v : Z) :
  0x2000 <= a < 0x4000 -> Z.land a 7 = 2 ->
  0x2000 <= b < 0x4000 -> Z.land b 7 = 2 ->
  eval (Memory.read a) s = MemoryObj.data (mem s) 0x2002 /\
  eval (Memory.read a) (exec (Memory.write b v) s) = Z.land v 0xFF /\
  eval (PPU.readRegister 0x2002) s = PPUObj.status (ppu s).
Proof.
  intros Ha Ha2 Hb Hb2.
  assert (Ia : Z.land a 0x2007 = 0x2002)
    by (rewrite land_0x2007, Ha2 by assumption; reflexivity).
  assert (Ib : Z.land b 0x2007 = 0x2002)
    by (rewrite land_0x2007, Hb2 by assumption; reflexivity).
  unfold eval, exec.
  rewrite (write_ppu_range b v s Hb), !read_ppu_range, Ia, Ib by assumption.
  cbn [fst snd mem MemoryObj.data]. unfold Uint8Array.set.
  rewrite Z.eqb_refl. repeat split.
  rewrite <- Z.land_assoc. reflexivity.
Qed.

Lemma status_read_is_memory_witness :
  eval (Memory.read 0x3FFA) power_on = MemoryObj.data (mem power_on) 0x2002 /\
  eval (Memory.read 0x3FFA) (exec (Memory.write 0x2002 0x1C0) power_on)
    = Z.land 0x1C0 0xFF /\
  eval (PPU.readRegister 0x2002) power_on = PPUObj.status (ppu power_on).
Proof.
  apply (status_read_is_memory power_on 0x3FFA 0x2002 0x1C0);
    first [reflexivity | lia].
Defined.

(** ** PPU cycles *)

Lemma ceil_113_step (i : Z) :
  (i + 1 + 112) / 113 =
  (i + 112) / 113 + (if i mod CYCLES_PER_SCANLINE =? 0 then 1 else 0).
Proof.
  unfold CYCLES_PER_SCANLINE.
  destruct (Z.eqb_spec (i mod 113) 0) as [E | E];
    Z.div_mod_to_equations; lia.
Qed.

Lemma set_currentScanline_twice (v w : Z) (s : Machine) :
  exec (PPU.set_currentScanline w) (exec (PPU.set_currentScanline v) s) =
  exec (PPU.set_currentScanline w) s.
Proof. reflexivity. Qed.

Lemma set_currentScanline_same (s : Machine) :
  exec (PPU.set_currentScanline (PPUObj.currentScanline (ppu s))) s = s.
Proof. destruct s as [m c []]. reflexivity. Qed.

(** The loop adds to the scanline one for each index in [i, i + n) that 113
    divides. *)
Lemma executeCycles_loop_scanline (n : nat) :
  forall (i : Z) (s : Machine),
  exec (PPU.executeCycles_loop n i) s =
  exec (PPU.set_currentScanline
          (PPUObj.currentScanline (ppu s)
           + ((i + Z.of_nat n + 112) / 113 - (i + 112) / 113))) s.
Proof.
  induction n as [| n IH]; intros i s.
  - cbn [PPU.executeCycles_loop]. rewrite Z.add_0_r, Z.sub_diag, Z.add_0_r.
    now rewrite set_currentScanline_same.
  - cbn [PPU.executeCycles_loop]. rewrite exec_bind, IH.
    replace (i + 1 + Z.of_nat n + 112) with (i + Z.of_nat (S n) + 112) by lia.
    rewrite ceil_113_step.
    destruct (i mod CYCLES_PER_SCANLINE =? 0).
    + unfold PPU.renderScanline. rewrite !exec_bind.
      change (exec (ret tt) ?x) with x.
      change (eval (gets ?f) ?x) with (f x).
      change (exec (gets ?f) ?x) with x.
      rewrite set_currentScanline_twice. f_equal. f_equal.
      change (PPUObj.currentScanline
                (ppu (exec (PPU.set_currentScanline ?v) ?x))) with v.
      lia.
    + change (exec (ret tt) ?x) with x. f_equal. f_equal. lia.
Qed.

(** C7, as the specification words it, fails on the PPU 261 ticks after
    power-on: the scanline is 261, within range, and one more tick makes it
    262. *)
Lemma tick_leaves_scanline_range : ~ spec_tick_in_range (after_ticks 261).
Proof.
  unfold spec_tick_in_range. intros H.
  assert (Hin : 0 <= PPUObj.currentScanline (ppu (after_ticks 261)) <= 261)
    by (vm_compute; split; discriminate).
  apply H in Hin. vm_compute in Hin. destruct Hin as [_ Hle]. now apply Hle.
Qed.

(** C7, amended. The PPU counts scanlines only: [executeCycles(n)] adds to
    [currentScanline] the number of loop indices below [n] that 113 divides,
    which is [n] over 113 rounded up, and changes nothing else; the counter
    is not wrapped and there is no dot counter or frame toggle to update. *)
Theorem executeCycles_counts_scanlines (s : Machine) (cycles : Z) :
  0 <= cycles ->
  exec (PPU.executeCycles cycles) s =
  exec (PPU.set_currentScanline
          (PPUObj.currentScanline (ppu s) + (cycles + 112) / 113)) s.
Proof.
  intros Hc. unfold PPU.executeCycles.
  rewrite executeCycles_loop_scanline, Z2Nat.id by assumption.
  rewrite Z.add_0_l. change ((0 + 112) / 113) with 0.
  now rewrite Z.sub_0_r.
Qed.

Lemma executeCycles_counts_scanlines_witness :
  exec (PPU.executeCycles 300) power_on =
  exec (PPU.set_currentScanline
          (PPUObj.currentScanline (ppu power_on) + (300 + 112) / 113))
       power_on /\
  PPUObj.currentScanline (ppu (exec (PPU.executeCycles 300) power_on)) = 3.
Proof.
  split.
  - apply (executeCycles_counts_scanlines power_on 300). lia.
  - now vm_compute.
Defined.

(** ** ROM loading *)

Lemma write_cartridge (a v : Z) (s : Machine) :
  0x4020 <= a < 0x10000 ->
  Memory.write a v s =
  (tt, mkMachine
         (MemoryObj.mk
            (Uint8Array.set (MemoryObj.data (mem s)) a (Z.land v 0xFF))
            (MemoryObj.ppuMemory (mem s)))
         (cpu s) (ppu s)).
Proof.
  intros Ha. unfold Memory.write, Memory.set_data, bind, gets, modify.
  rewrite land_FFFF by lia.
  destruct (Z.ltb_spec a 0x2000); [lia |].
  destruct (Z.geb_spec a 0x2000); [| lia].
  destruct (Z.ltb_spec a 0x4000); [lia |].
  destruct (Z.geb_spec a 0x4000); [| lia].
  destruct (Z.leb_spec a 0x401F); [lia |].
  destruct (Z.geb_spec a 0x4020); [reflexivity | lia].
Qed.

(** The copy loop touches [Memory.data] only, from [cpuMemoryAddress] up to
    the end of the 64 KiB or of its [n] iterations, whichever comes first. *)
Lemma loadRom_loop_copies (romBuffer : list Z) (n : nat) :
  forall (i cpuMemoryAddress : Z) (s : Machine),
  0x8000 <= cpuMemoryAddress <= 0x10000 ->
  let s' := exec (loadRom_loop romBuffer n i cpuMemoryAddress) s in
  cpu s' = cpu s /\ ppu s' = ppu s /\
  MemoryObj.ppuMemory (mem s') = MemoryObj.ppuMemory (mem s) /\
  forall a,
    MemoryObj.data (mem s') a =
    if (cpuMemoryAddress <=? a)
       && (a <? Z.min (cpuMemoryAddress + Z.of_nat n) 0x10000)
    then Z.land (toInt32 (romByte romBuffer (i + (a - cpuMemoryAddress)))) 0xFF
    else MemoryObj.data (mem s) a.
Proof.
  induction n as [| n IH]; intros i addr s Haddr; cbv zeta.
  - cbn [loadRom_loop]. change (exec (ret tt) s) with s.
    repeat split. intros a.
    destruct (Z.leb_spec addr a), (Z.ltb_spec a (Z.min (addr + Z.of_nat 0) 0x10000));
      cbn [andb]; reflexivity || lia.
  - cbn [loadRom_loop].
    destruct (Z.ltb_spec addr 0x8000) as [Hlt | _]; [lia |].
    destruct (Z.geb_spec addr 0x10000) as [Hge | Hin]; cbn [orb].
    + change (exec (ret tt) s) with s. repeat split. intros a.
      destruct (Z.leb_spec addr a),
        (Z.ltb_spec a (Z.min (addr + Z.of_nat (S n)) 0x10000));
        cbn [andb]; reflexivity || lia.
    + rewrite exec_bind.
      set (s1 := exec (Memory.write addr (toInt32 (romByte romBuffer i))) s).
      assert (Hs1 : s1 = mkMachine
                 (MemoryObj.mk
                    (Uint8Array.set (MemoryObj.data (mem s)) addr
                       (Z.land (toInt32 (romByte romBuffer i)) 0xFF))
                    (MemoryObj.ppuMemory (mem s)))
                 (cpu s) (ppu s)).
      { subst s1. unfold exec. now rewrite write_cartridge by lia. }
      destruct (IH (i + 1) (addr + 1) s1 ltac:(lia)) as (Hc & Hp & Hm & Hd).
      rewrite Hc, Hp, Hm.
      split; [now rewrite Hs1 |]. split; [now rewrite Hs1 |].
      split; [now rewrite Hs1 |]. intros a. rewrite Hd, Hs1.
      cbn [mem MemoryObj.data]. unfold Uint8Array.set.
      destruct (Z.leb_spec (addr + 1) a),
        (Z.ltb_spec a (Z.min (addr + 1 + Z.of_nat n) 0x10000)),
        (Z.leb_spec addr a),
        (Z.ltb_spec a (Z.min (addr + Z.of_nat (S n)) 0x10000)),
        (Z.eqb_spec a addr);
        cbn [andb]; try lia; try reflexivity.
      * do 3 f_equal. lia.
      * subst a. rewrite Z.sub_diag, Z.add_0_r.
        now rewrite <- Z.land_assoc.
Qed.

Lemma loadRom_unfold (romBuffer : list Z) :
  loadRom romBuffer =
  if has_magic romBuffer then
    loadRom_loop romBuffer (Z.to_nat (prgRomSize romBuffer)) 16 0x8000 ;;
    CPU.reset ;;
    ret (inr tt)
  else ret (inl "Invalid NES ROM file."%string).
Proof.
  unfold loadRom, has_magic, prgRomSize.
  now destruct (differs (romByte romBuffer 0) 0x4E
                || differs (romByte romBuffer 1) 0x45
                || differs (romByte romBuffer 2) 0x53
                || differs (romByte romBuffer 3) 0x1A).
Qed.

(** C9, as the specification words it, fails on a header that names
    mapper 1: the specification rejects it, [loadRom] returns without a
    message. *)
Lemma loadRom_accepts_mapper1 : ~ spec_loadRom mapper1_rom power_on.
Proof.
  unfold spec_loadRom. intros [_ H].
  destruct H as [msg Hmsg]; [now vm_compute |].
  vm_compute in Hmsg. discriminate Hmsg.
Qed.

(** C9, amended. [loadRom] turns a file away exactly when its first four
    bytes are not [N], [E], [S], $1A, leaving the message on [console.error]
    and the machine as it was.  Any other file is loaded without an error:
    [16384 * byte 4] bytes from file offset 16 on, at most 32768 of them, go
    to $8000 onward (a byte past the end of the file is stored as 0), the CPU
    is reset, and nothing else changes. *)
Theorem loadRom_checks_magic_only (romBuffer : list Z) (s : Machine) :
  if has_magic romBuffer then
    let s' := exec (loadRom romBuffer) s in
    eval (loadRom romBuffer) s = inr tt /\
    cpu s' = cpu (exec CPU.reset s) /\ ppu s' = ppu s /\
    MemoryObj.ppuMemory (mem s') = MemoryObj.ppuMemory (mem s) /\
    forall a,
      MemoryObj.data (mem s') a =
      if (0x8000 <=? a)
         && (a <? 0x8000 + Z.min (prgRomSize romBuffer) 0x8000)
      then Z.land (toInt32 (romByte romBuffer (16 + (a - 0x8000)))) 0xFF
      else MemoryObj.data (mem s) a
  else loadRom romBuffer s = (inl "Invalid NES ROM file."%string, s).
Proof.
  rewrite loadRom_unfold. destruct (has_magic romBuffer); [| reflexivity].
  cbv zeta. rewrite eval_bind, eval_bind, !exec_bind.
  change (exec (ret ?r) ?x) with x. change (eval (ret ?r) ?x) with r.
  set (n := Z.to_nat (prgRomSize romBuffer)).
  destruct (loadRom_loop_copies romBuffer n 16 0x8000 s ltac:(lia))
    as (Hc & Hp & Hm & Hd).
  set (s1 := exec (loadRom_loop romBuffer n 16 0x8000) s) in *.
  rewrite !exec_reset. cbn [cpu ppu mem].
  rewrite Hc, Hp, Hm. repeat split. intros a. rewrite Hd.
  assert (Hn : Z.of_nat n = Z.max 0 (prgRomSize romBuffer))
    by (subst n; lia).
  destruct (Z.leb_spec 0x8000 a),
    (Z.ltb_spec a (Z.min (0x8000 + Z.of_nat n) 0x10000)),
    (Z.ltb_spec a (0x8000 + Z.min (prgRomSize romBuffer) 0x8000));
    cbn [andb]; reflexivity || lia.
Qed.

(** * Further properties of the code *)

(** ** The bus over the whole address space *)

Lemma read_index (a : Z) (s : Machine) :
  Memory.read a s = (MemoryObj.data (mem s) (bus_index a), s).
Proof.
  unfold Memory.read, bus_index, bind, gets, ret, Uint8Array.get. cbv zeta.
  destruct (Z.ltb_spec (Z.land a 0xFFFF) 0x2000); [reflexivity |].
  destruct (Z.geb_spec (Z.land a 0xFFFF) 0x2000); [| lia].
  destruct (Z.ltb_spec (Z.land a 0xFFFF) 0x4000); [reflexivity |].
  destruct (Z.geb_spec (Z.land a 0xFFFF) 0x4000); [| lia].
  destruct (Z.leb_spec (Z.land a 0xFFFF) 0x401F); [reflexivity |].
  destruct (Z.geb_spec (Z.land a 0xFFFF) 0x4020); [reflexivity | lia].
Qed.

Lemma write_index (a v : Z) (s : Machine) :
  Memory.write a v s =
  (tt, mkMachine
         (MemoryObj.mk
            (Uint8Array.set (MemoryObj.data (mem s)) (bus_index a)
               (Z.land v 0xFF))
            (MemoryObj.ppuMemory (mem s)))
         (cpu s) (ppu s)).
Proof.
  unfold Memory.write, Memory.set_data, bus_index, bind, gets, modify, ret.
  cbv zeta.
  destruct (Z.ltb_spec (Z.land a 0xFFFF) 0x2000); [reflexivity |].
  destruct (Z.geb_spec (Z.land a 0xFFFF) 0x2000); [| lia].
  destruct (Z.ltb_spec (Z.land a 0xFFFF) 0x4000); [reflexivity |].
  destruct (Z.geb_spec (Z.land a 0xFFFF) 0x4000); [| lia].
  destruct (Z.leb_spec (Z.land a 0xFFFF) 0x401F); [reflexivity |].
  destruct (Z.geb_spec (Z.land a 0xFFFF) 0x4020); [reflexivity | lia].
Qed.

Lemma eval_read (a : Z) (s : Machine) :
  eval (Memory.read a) s = MemoryObj.data (mem s) (bus_index a).
Proof. unfold eval. now rewrite read_index. Qed.

Lemma land_land_FF (v : Z) : Z.land (Z.land v 0xFF) 0xFF = Z.land v 0xFF.
Proof. now rewrite <- Z.land_assoc. Qed.

(** X1. A byte written over the bus is read back at every address that
    selects the same cell, for all addresses, mirrored or not, and whatever
    their size; a read elsewhere is not disturbed; and a write touches
    nothing but [Memory.data]. *)
Theorem bus_read_after_write (s : Machine) (a a' v : Z) :
  let s' := exec (Memory.write a v) s in
  eval (Memory.read a') s' =
    (if bus_index a' =? bus_index a then Z.land v 0xFF
     else eval (Memory.read a') s) /\
  cpu s' = cpu s /\ ppu s' = ppu s /\
  MemoryObj.ppuMemory (mem s') = MemoryObj.ppuMemory (mem s).
Proof.
  cbv zeta. unfold exec. rewrite write_index, !eval_read.
  cbn [snd mem cpu ppu MemoryObj.data MemoryObj.ppuMemory].
  unfold Uint8Array.set. rewrite land_land_FF. repeat split.
Qed.

Lemma land_7_mod (a : Z) : Z.land a 7 = a mod 8.
Proof. apply (Z.land_ones a 3). lia. Qed.

Lemma bus_index_ppu (a : Z) :
  0x2000 <= a < 0x4000 -> bus_index a = 0x2000 + a mod 8.
Proof.
  intros Ha. unfold bus_index. cbv zeta. rewrite land_FFFF by lia.
  destruct (Z.ltb_spec a 0x2000); [lia |].
  destruct (Z.ltb_spec a 0x4000); [| lia].
  rewrite land_0x2007 by lia. rewrite land_7_mod.
  change 0x2000 with (2 ^ 13).
  assert (Hm : 0 <= a mod 8 < 8) by (apply Z.mod_pos_bound; lia).
  assert (Hz : Z.land (2 ^ 13) (a mod 8) = 0).
  { apply Z.bits_inj'. intros n Hn.
    rewrite Z.land_spec, Z.bits_0, Z.pow2_bits_eqb by lia.
    destruct (Z.eqb_spec 13 n) as [<- | Hne]; [| reflexivity].
    cbn [andb]. apply (Z.bits_above_log2 (a mod 8) 13); [lia |].
    destruct (Z.eq_dec (a mod 8) 0) as [-> | Hnz]; [cbn; lia |].
    apply Z.log2_lt_pow2; lia. }
  now rewrite <- (Z.lxor_lor _ _ Hz), <- (Z.add_nocarry_lxor _ _ Hz).
Qed.

Lemma bus_index_high (a : Z) : 0x4000 <= a < 0x10000 -> bus_index a = a.
Proof.
  intros Ha. unfold bus_index. cbv zeta. rewrite land_FFFF by lia.
  destruct (Z.ltb_spec a 0x2000); [lia |].
  destruct (Z.ltb_spec a 0x4000); [lia | reflexivity].
Qed.

Lemma bus_index_ram (a : Z) : 0 <= a < 0x2000 -> bus_index a = a mod 0x800.
Proof.
  intros Ha. unfold bus_index. cbv zeta. rewrite land_FFFF by lia.
  destruct (Z.ltb_spec a 0x2000); [| lia].
  apply (Z.land_ones a 11). lia.
Qed.

(** X2. The eight PPU register cells repeat every 8 bytes through
    $2000-$3FFF: a byte stored at one address of the range is read at every
    address of the range that is congruent to it modulo 8, and at no other.
    From $4000 up nothing is mirrored: a store is seen at its own address
    only. *)
Theorem ppu_range_mirrors_every_8 (s : Machine) (a a' v : Z) :
  0 <= v < 256 ->
  let s' := exec (Memory.write a v) s in
  (0x2000 <= a < 0x4000 -> 0x2000 <= a' < 0x4000 ->
     eval (Memory.read a') s' =
     if a' mod 8 =? a mod 8 then v else eval (Memory.read a') s) /\
  (0x4000 <= a < 0x10000 -> 0x4000 <= a' < 0x10000 ->
     eval (Memory.read a') s' =
     if a' =? a then v else eval (Memory.read a') s).
Proof.
  intros Hv s'. subst s'. unfold exec. rewrite write_index, !eval_read.
  cbn [snd mem MemoryObj.data]. unfold Uint8Array.set.
  rewrite land_land_FF, (land_FF v Hv). split; intros Ha Ha'.
  - rewrite !bus_index_ppu by assumption.
    destruct (Z.eqb_spec (0x2000 + a' mod 8) (0x2000 + a mod 8)),
      (Z.eqb_spec (a' mod 8) (a mod 8)); reflexivity || lia.
  - now rewrite !bus_index_high by assumption.
Qed.

Lemma ppu_range_mirrors_every_8_witness :
  let s' := exec (Memory.write 0x2006 0x3F) power_on in
  (0x2000 <= 0x2006 < 0x4000 -> 0x2000 <= 0x3FFE < 0x4000 ->
     eval (Memory.read 0x3FFE) s' =
     if 0x3FFE mod 8 =? 0x2006 mod 8 then 0x3F
     else eval (Memory.read 0x3FFE) power_on) /\
  (0x4000 <= 0x2006 < 0x10000 -> 0x4000 <= 0x3FFE < 0x10000 ->
     eval (Memory.read 0x3FFE) s' =
     if 0x3FFE =? 0x2006 then 0x3F else eval (Memory.read 0x3FFE) power_on).
Proof.
  apply (ppu_range_mirrors_every_8 power_on 0x2006 0x3FFE 0x3F). lia.
Defined.

(** ** PPU memory *)

(** X3. [ppuWrite] then [ppuRead]: the low 8 bits of the stored value come
    back at every address equal to the written one in its low 14 bits, other
    cells are as before, and the CPU side of the machine is not touched; nor
    does a write over the CPU bus change what [ppuRead] returns. *)
Theorem ppu_memory_read_after_write (s : Machine) (a a' b v : Z) :
  let s' := exec (Memory.ppuWrite a v) s in
  eval (Memory.ppuRead a') s' =
    (if Z.land a' 0x3FFF =? Z.land a 0x3FFF then Z.land v 0xFF
     else eval (Memory.ppuRead a') s) /\
  MemoryObj.data (mem s') = MemoryObj.data (mem s) /\
  cpu s' = cpu s /\ ppu s' = ppu s /\
  eval (Memory.ppuRead a') (exec (Memory.write b v) s)
    = eval (Memory.ppuRead a') s.
Proof.
  cbv zeta. unfold exec. rewrite write_index. repeat split.
Qed.

(** ** Stepping through monadic code *)

(** Runs the getters, setters and binds of a computation on an explicit
    machine; bus reads and writes stay in place, to be rewritten with
    [read_index] and [write_index]. *)
Ltac mrun :=
  cbv beta iota zeta delta
    [bind gets modify ret exec eval fst snd mem cpu ppu
     CPUObj.A CPUObj.X CPUObj.Y CPUObj.PC CPUObj.SP CPUObj.Flags
     FlagsObj.BreakFlag FlagsObj.CarryFlag FlagsObj.DecimalModeFlag
     FlagsObj.InterruptFlag FlagsObj.NegativeFlag FlagsObj.OverflowFlag
     FlagsObj.ZeroFlag MemoryObj.data MemoryObj.ppuMemory
     CPU.setZN CPU.incPC CPU.incSP CPU.decSP
     CPU.getA CPU.getX CPU.getY CPU.getPC CPU.getSP CPU.getFlag
     CPU.setA CPU.setX CPU.setY CPU.setPC CPU.setSP
     CPU.setBreakFlag CPU.setCarryFlag CPU.setDecimalModeFlag
     CPU.setInterruptFlag CPU.setNegativeFlag CPU.setOverflowFlag
     CPU.setZeroFlag CPU.updFlags CPU.upd
     CPU.getStatusFlags CPU.setFlags CPU.readMemory CPU.writeMemory].

Ltac mstep :=
  repeat (mrun; rewrite ?read_index, ?write_index).

(** ** The status byte *)

Lemma flag_bit (v k : Z) :
  0 <= k -> (if nonzero (Z.land v (2 ^ k)) then 2 ^ k else 0) = Z.land v (2 ^ k).
Proof.
  intros Hk. rewrite land_pow2 by assumption. unfold nonzero.
  destruct (Z.testbit v k); [| reflexivity].
  destruct (Z.eqb_spec (2 ^ k) 0) as [E | _]; [| reflexivity].
  pose proof (Z.pow_pos_nonneg 2 k). lia.
Qed.

(** X4. The status byte and the flags convert back and forth: loading the
    flags from the byte [getStatusFlags] returns changes nothing, and after
    [setFlags(v)] the byte is [v] with every bit but bit 5, for which the CPU
    keeps no flag, and the bits above bit 7. *)
Theorem status_byte_round_trip (s : Machine) (v : Z) :
  exec (b <- CPU.getStatusFlags ;; CPU.setFlags b) s = s /\
  eval CPU.getStatusFlags (exec (CPU.setFlags v) s) = Z.land v 0xDF.
Proof.
  split.
  - destruct s as [m [a x y pc sp [fb fc fd fi fn fo fz]] p].
    destruct fb, fc, fd, fi, fn, fo, fz; reflexivity.
  - mrun.
    change 0x01 with (2 ^ 0); change 0x02 with (2 ^ 1);
      change 0x04 with (2 ^ 2); change 0x08 with (2 ^ 3);
      change 0x10 with (2 ^ 4); change 0x40 with (2 ^ 6);
      change 0x80 with (2 ^ 7).
    rewrite !flag_bit by lia. rewrite <- !Z.land_lor_distr_r. reflexivity.
Qed.

(** ** The stack *)

Lemma bus_index_stack (sp : Z) :
  0 <= sp < 256 -> bus_index (0x0100 + sp) = 0x0100 + sp.
Proof. intros H. rewrite bus_index_ram by lia. apply Z.mod_small. lia. Qed.

Lemma sp_dec_inc (sp : Z) :
  0 <= sp < 256 -> Z.land (Z.land (sp - 1) 0xFF + 1) 0xFF = sp.
Proof.
  intros H. rewrite !land_FF_mod. rewrite Z.add_mod_idemp_l by lia.
  replace (sp - 1 + 1) with sp by lia. now apply Z.mod_small.
Qed.

Lemma sp_dec_neq (sp : Z) : 0 <= sp < 256 -> Z.land (sp - 1) 0xFF <> sp.
Proof. intros H. rewrite land_FF_mod. Z.div_mod_to_equations. lia. Qed.

Lemma sp_dec_dec_neq (sp : Z) :
  0 <= sp < 256 -> Z.land (Z.land (sp - 1) 0xFF - 1) 0xFF <> sp.
Proof. intros H. rewrite !land_FF_mod. Z.div_mod_to_equations. lia. Qed.

Lemma testbit_FF (k : Z) : 0 <= k -> Z.testbit 0xFF k = (k <? 8).
Proof.
  intros Hk. change 0xFF with (Z.ones 8).
  destruct (Z.ltb_spec k 8).
  - apply Z.ones_spec_low. lia.
  - apply Z.ones_spec_high. lia.
Qed.

(** A 16-bit number is its two bytes put together again. *)
Lemma word_split (r : Z) :
  0 <= r < 0x10000 ->
  Z.lor (Z.shiftl (Z.land (Z.shiftr r 8) 0xFF) 8) (Z.land r 0xFF) = r.
Proof.
  intros Hr. apply Z.bits_inj'. intros n Hn.
  rewrite Z.lor_spec, Z.land_spec, testbit_FF by lia.
  destruct (Z.ltb_spec n 8).
  - rewrite Z.shiftl_spec_low by lia. now rewrite andb_true_r.
  - rewrite Z.shiftl_spec, Z.land_spec, Z.shiftr_spec, testbit_FF by lia.
    replace (n - 8 + 8) with n by lia. rewrite andb_false_r, orb_false_r.
    destruct (Z.ltb_spec (n - 8) 8); [apply andb_true_r |].
    rewrite andb_false_r. symmetry.
    destruct (Z.eq_dec r 0) as [-> | Hnz]; [apply Z.bits_0 |].
    apply Z.bits_above_log2; [lia |].
    apply Z.log2_lt_pow2; [lia |].
    assert (2 ^ 16 <= 2 ^ n) by (apply Z.pow_le_mono_r; lia). lia.
Qed.

(** X5. [PHA] then [PLA] gives the accumulator back and the stack pointer
    with it, wherever in page 1 the stack pointer stands (at $00 the push
    wraps to $FF and the pull wraps back).  Z and N are those of the
    accumulator, the byte stays at $0100 + SP, and nothing else changes. *)
Theorem PHA_PLA_round_trip (s : Machine) :
  0 <= CPUObj.SP (cpu s) < 256 -> 0 <= CPUObj.A (cpu s) < 256 ->
  let s' := exec (CPU.PHA ;; CPU.PLA) s in
  let a := CPUObj.A (cpu s) in
  cpu s' = cpu (exec (CPU.setZN a) s) /\
  CPUObj.A (cpu s') = a /\ CPUObj.SP (cpu s') = CPUObj.SP (cpu s) /\
  FlagsObj.ZeroFlag (CPUObj.Flags (cpu s')) = (a =? 0) /\
  FlagsObj.NegativeFlag (CPUObj.Flags (cpu s')) = Z.testbit a 7 /\
  eval (Memory.read (0x0100 + CPUObj.SP (cpu s))) s' = a /\
  (forall i, i <> 0x0100 + CPUObj.SP (cpu s) ->
     MemoryObj.data (mem s') i = MemoryObj.data (mem s) i) /\
  MemoryObj.ppuMemory (mem s') = MemoryObj.ppuMemory (mem s) /\
  ppu s' = ppu s.
Proof.
  destruct s as [[d pm] [a x y pc sp [fb fc fd fi fn fo fz]] p].
  cbn [cpu CPUObj.SP CPUObj.A]. intros Hsp Ha.
  unfold CPU.PHA, CPU.PLA. mstep.
  rewrite (sp_dec_inc sp Hsp), !bus_index_stack by assumption.
  unfold Uint8Array.set. rewrite !Z.eqb_refl, land_land_FF, (land_FF a Ha).
  rewrite nonzero_land_0x80. repeat split.
  intros i Hi. destruct (Z.eqb_spec i (256 + sp)); [contradiction | reflexivity].
Qed.

Lemma PHA_PLA_round_trip_witness :
  let s := exec (CPU.setA 0x80 ;; CPU.setSP 0x00) power_on in
  CPUObj.A (cpu (exec (CPU.PHA ;; CPU.PLA) s)) = 0x80 /\
  CPUObj.SP (cpu (exec (CPU.PHA ;; CPU.PLA) s)) = 0x00.
Proof.
  intros s.
  destruct (PHA_PLA_round_trip s) as (_ & HA & HS & _); [cbn; lia | cbn; lia |].
  split; [exact HA | exact HS].
Defined.

(** X6. [PHP] then [PLP] gives every flag back but B, which comes back
    set: the byte [PHP] pushes has bit 4 forced to 1 and [PLP] loads B from
    it.  Registers and stack pointer are as before. *)
Theorem PHP_PLP_round_trip (s : Machine) :
  0 <= CPUObj.SP (cpu s) < 256 ->
  let s' := exec (CPU.PHP ;; CPU.PLP) s in
  cpu s' = cpu (exec (CPU.setBreakFlag true) s) /\
  eval (Memory.read (0x0100 + CPUObj.SP (cpu s))) s'
    = Z.lor (eval CPU.getStatusFlags s) 0x10 /\
  (forall i, i <> 0x0100 + CPUObj.SP (cpu s) ->
     MemoryObj.data (mem s') i = MemoryObj.data (mem s) i) /\
  MemoryObj.ppuMemory (mem s') = MemoryObj.ppuMemory (mem s) /\
  ppu s' = ppu s.
Proof.
  destruct s as [[d pm] [a x y pc sp [fb fc fd fi fn fo fz]] p].
  cbn [cpu CPUObj.SP]. intros Hsp.
  unfold CPU.PHP, CPU.PLP. mstep.
  rewrite (sp_dec_inc sp Hsp), !bus_index_stack by assumption.
  unfold Uint8Array.set. rewrite !Z.eqb_refl.
  split; [| split; [| split; [| split] ] ]; try reflexivity.
  - destruct fb, fc, fd, fi, fn, fo, fz; reflexivity.
  - destruct fb, fc, fd, fi, fn, fo, fz; reflexivity.
  - intros i Hi. destruct (Z.eqb_spec i (256 + sp)); [contradiction | reflexivity].
Qed.

Lemma PHP_PLP_round_trip_witness :
  let s := exec CPU.SEC power_on in
  cpu (exec (CPU.PHP ;; CPU.PLP) s) = cpu (exec (CPU.setBreakFlag true) s).
Proof.
  intros s. destruct (PHP_PLP_round_trip s) as (H & _); [cbn; lia | exact H].
Defined.

(** X7. [JSR] then [RTS] comes back to where [JSR] was called from: [PC] is
    again the address after the operand of [JSR], the stack pointer is as
    before, no register or flag has changed, and the two stack bytes hold
    the return address minus one, high byte first. *)
Theorem JSR_RTS_round_trip (s : Machine) (address : Z) :
  0 <= CPUObj.SP (cpu s) < 256 -> 1 <= CPUObj.PC (cpu s) <= 0x10000 ->
  let s' := exec (CPU.JSR address ;; CPU.RTS) s in
  let sp := CPUObj.SP (cpu s) in
  let r := CPUObj.PC (cpu s) - 1 in
  CPUObj.PC (cpu (exec (CPU.JSR address) s)) = address /\
  cpu s' = cpu s /\
  eval (Memory.read (0x0100 + sp)) s' = Z.shiftr r 8 /\
  eval (Memory.read (0x0100 + Z.land (sp - 1) 0xFF)) s' = Z.land r 0xFF /\
  (forall i, i <> 0x0100 + sp -> i <> 0x0100 + Z.land (sp - 1) 0xFF ->
     MemoryObj.data (mem s') i = MemoryObj.data (mem s) i) /\
  MemoryObj.ppuMemory (mem s') = MemoryObj.ppuMemory (mem s) /\
  ppu s' = ppu s.
Proof.
  destruct s as [[d pm] [a x y pc sp [fb fc fd fi fn fo fz]] p].
  cbn [cpu CPUObj.SP CPUObj.PC]. intros Hsp Hpc.
  unfold CPU.JSR, CPU.RTS. mstep.
  set (sp1 := Z.land (sp - 1) 0xFF).
  assert (H1 : 0 <= sp1 < 256) by apply land_FF_range.
  assert (E1 : Z.land (sp1 + 1) 0xFF = sp) by (now apply sp_dec_inc).
  assert (N1 : sp1 <> sp) by (now apply sp_dec_neq).
  rewrite (sp_dec_inc sp1 H1), E1.
  rewrite !bus_index_stack by assumption.
  unfold Uint8Array.set.
  rewrite !Z.eqb_refl.
  destruct (Z.eqb_spec (256 + sp) (256 + sp1)); [lia |].
  rewrite !land_land_FF, word_split by lia.
  split; [reflexivity |]. split; [do 2 f_equal; lia |].
  split.
  { apply land_FF. rewrite Z.shiftr_div_pow2 by lia.
    change (2 ^ 8) with 256. Z.div_mod_to_equations. lia. }
  split; [reflexivity |]. split; [| split; reflexivity].
  intros i Hi Hi1.
  destruct (Z.eqb_spec i (256 + sp1)); [contradiction |].
  destruct (Z.eqb_spec i (256 + sp)); [contradiction | reflexivity].
Qed.

Lemma JSR_RTS_round_trip_witness :
  cpu (exec (CPU.JSR 0x0005 ;; CPU.RTS) (exec (CPU.setPC 0x0003) power_on))
  = cpu (exec (CPU.setPC 0x0003) power_on).
Proof.
  destruct (JSR_RTS_round_trip (exec (CPU.setPC 0x0003) power_on) 0x0005)
    as (_ & H & _); [cbn; lia | cbn; lia | exact H].
Defined.

(** X8. [BRK] then [RTI] resumes one byte after the address [BRK] ran at
    (the opcode has been fetched, so this skips the byte that follows it):
    [PC] is the old [PC] plus one, the stack pointer and the registers are as
    before, and the flags are the old ones with B set; the I flag that [BRK]
    raised is dropped again, because the status was pushed before. *)
Theorem BRK_RTI_round_trip (s : Machine) :
  0 <= CPUObj.SP (cpu s) < 256 -> 0 <= CPUObj.PC (cpu s) + 1 < 0x10000 ->
  let s1 := exec CPU.BRK s in
  let s' := exec (CPU.BRK ;; CPU.RTI) s in
  FlagsObj.InterruptFlag (CPUObj.Flags (cpu s1)) = true /\
  CPUObj.PC (cpu s1) =
    Z.lor (Z.shiftl (eval (Memory.read 0xFFFF) s1) 8)
          (eval (Memory.read 0xFFFE) s1) /\
  CPUObj.SP (cpu s1) = Z.land (CPUObj.SP (cpu s) - 3) 0xFF /\
  cpu s' =
    cpu (exec (CPU.setPC (CPUObj.PC (cpu s) + 1) ;; CPU.setBreakFlag true) s) /\
  MemoryObj.ppuMemory (mem s') = MemoryObj.ppuMemory (mem s) /\
  ppu s' = ppu s.
Proof.
  destruct s as [[d pm] [a x y pc sp [fb fc fd fi fn fo fz]] p].
  cbn [cpu CPUObj.SP CPUObj.PC]. intros Hsp Hpc.
  unfold CPU.BRK, CPU.RTI. mstep.
  set (sp1 := Z.land (sp - 1) 0xFF).
  set (sp2 := Z.land (sp1 - 1) 0xFF).
  assert (H1 : 0 <= sp1 < 256) by apply land_FF_range.
  assert (H2 : 0 <= sp2 < 256) by apply land_FF_range.
  assert (E1 : Z.land (sp1 + 1) 0xFF = sp) by (now apply sp_dec_inc).
  assert (E2 : Z.land (sp2 + 1) 0xFF = sp1) by (now apply sp_dec_inc).
  assert (N1 : sp1 <> sp) by (now apply sp_dec_neq).
  assert (N2 : sp2 <> sp1) by (now apply sp_dec_neq).
  assert (N3 : sp2 <> sp) by (now apply sp_dec_dec_neq).
  assert (E3 : Z.land (sp2 - 1) 0xFF = Z.land (sp - 3) 0xFF).
  { subst sp2 sp1. rewrite !land_FF_mod. Z.div_mod_to_equations. lia. }
  rewrite (sp_dec_inc sp2 H2), E2, E1.
  rewrite !bus_index_stack by assumption.
  unfold Uint8Array.set. rewrite !Z.eqb_refl.
  destruct (Z.eqb_spec (256 + sp1) (256 + sp2)); [lia |].
  destruct (Z.eqb_spec (256 + sp) (256 + sp2)); [lia |].
  destruct (Z.eqb_spec (256 + sp) (256 + sp1)); [lia |].
  rewrite !land_land_FF, word_split by lia.
  split; [reflexivity |]. split; [reflexivity |]. split; [exact E3 |].
  split; [| split; reflexivity].
  destruct fb, fc, fd, fi, fn, fo, fz; reflexivity.
Qed.

Lemma BRK_RTI_round_trip_witness :
  cpu (exec (CPU.BRK ;; CPU.RTI) power_on) =
  cpu (exec (CPU.setPC (CPUObj.PC (cpu power_on) + 1) ;;
             CPU.setBreakFlag true) power_on).
Proof.
  destruct (BRK_RTI_round_trip power_on) as (_ & _ & _ & H & _);
    [cbn; lia | cbn; lia | exact H].
Defined.

(** ** Checking a fact on every byte *)

Lemma byte_forallb (f : Z -> bool) :
  forallb f (map Z.of_nat (seq 0 256)) = true ->
  forall v, 0 <= v < 256 -> f v = true.
Proof.
  intros H v Hv. rewrite forallb_forall in H. apply H.
  apply in_map_iff. exists (Z.to_nat v). split; [lia |].
  apply in_seq. lia.
Qed.

(** ** Compare *)

Lemma compare_zero (r m : Z) :
  0 <= r < 256 -> 0 <= m < 256 -> (Z.land (r - m) 0xFF =? 0) = (r =? m).
Proof.
  intros Hr Hm. rewrite land_FF_mod.
  destruct (Z.eqb_spec ((r - m) mod 256) 0) as [E | E], (Z.eqb_spec r m);
    try reflexivity; exfalso; revert E; Z.div_mod_to_equations; lia.
Qed.

(** X9. [CMP], [CPX] and [CPY] compare a register with a byte [m] as
    unsigned numbers: the carry is [reg >= m], Z is [reg == m], N is bit 7 of
    the difference taken modulo 256; no register and no memory changes. *)
Theorem compare_sets_flags (s : Machine) (m : Z) :
  0 <= CPUObj.A (cpu s) < 256 -> 0 <= CPUObj.X (cpu s) < 256 ->
  0 <= CPUObj.Y (cpu s) < 256 -> 0 <= m < 256 ->
  let flags r :=
    CPU.setCarryFlag (r >=? m) ;; CPU.setZeroFlag (r =? m) ;;
    CPU.setNegativeFlag (Z.testbit ((r - m) mod 256) 7) in
  exec (CPU.CMP m) s = exec (flags (CPUObj.A (cpu s))) s /\
  exec (CPU.CPX m) s = exec (flags (CPUObj.X (cpu s))) s /\
  exec (CPU.CPY m) s = exec (flags (CPUObj.Y (cpu s))) s.
Proof.
  destruct s as [mm [a x y pc sp [fb fc fd fi fn fo fz]] p].
  cbn [cpu CPUObj.A CPUObj.X CPUObj.Y]. intros Ha Hx Hy Hm.
  unfold CPU.CMP, CPU.CPX, CPU.CPY. mrun.
  rewrite !compare_zero, !nonzero_land_0x80, !testbit7_mod_256 by assumption.
  repeat split.
Qed.

Lemma compare_sets_flags_witness :
  FlagsObj.CarryFlag
    (CPUObj.Flags (cpu (exec (CPU.CMP 0x10) (exec (CPU.setA 0x20) power_on))))
  = true.
Proof.
  destruct (compare_sets_flags (exec (CPU.setA 0x20) power_on) 0x10
              ltac:(cbn; lia) ltac:(cbn; lia) ltac:(cbn; lia) ltac:(lia))
    as (H & _).
  rewrite H. reflexivity.
Defined.

(** ** Increment and decrement *)

Lemma byte_inc_dec (x : Z) :
  0 <= x < 256 -> Z.land (Z.land (x + 1) 0xFF - 1) 0xFF = x.
Proof.
  intros H. rewrite !land_FF_mod. rewrite Zminus_mod_idemp_l.
  replace (x + 1 - 1) with x by lia. now apply Z.mod_small.
Qed.

(** X10. On a register that holds a byte an increment undoes a decrement
    and a decrement an increment, through the wrap from $FF to $00 as well:
    after [INX; DEX], [DEX; INX], [INY; DEY] or [DEY; INY] the register is
    what it was, Z and N are those of the register, and nothing else has
    changed. *)
Theorem inc_dec_register_round_trip (s : Machine) :
  0 <= CPUObj.X (cpu s) < 256 -> 0 <= CPUObj.Y (cpu s) < 256 ->
  exec (CPU.INX ;; CPU.DEX) s = exec (CPU.setZN (CPUObj.X (cpu s))) s /\
  exec (CPU.DEX ;; CPU.INX) s = exec (CPU.setZN (CPUObj.X (cpu s))) s /\
  exec (CPU.INY ;; CPU.DEY) s = exec (CPU.setZN (CPUObj.Y (cpu s))) s /\
  exec (CPU.DEY ;; CPU.INY) s = exec (CPU.setZN (CPUObj.Y (cpu s))) s.
Proof.
  destruct s as [mm [a x y pc sp [fb fc fd fi fn fo fz]] p].
  cbn [cpu CPUObj.X CPUObj.Y]. intros Hx Hy.
  unfold CPU.INX, CPU.DEX, CPU.INY, CPU.DEY. mrun.
  rewrite !byte_inc_dec, !sp_dec_inc by assumption.
  repeat split.
Qed.

Lemma inc_dec_register_round_trip_witness :
  let s := exec (CPU.setX 0xFF) power_on in
  exec (CPU.INX ;; CPU.DEX) s = exec (CPU.setZN 0xFF) s.
Proof.
  intros s.
  destruct (inc_dec_register_round_trip s ltac:(cbn; lia) ltac:(cbn; lia))
    as (H & _).
  exact H.
Defined.

(** X11. [INC] then [DEC] of the same address, or [DEC] then [INC], leaves
    every cell of memory as it was, the addressed one included, when that
    cell holds a byte; Z and N are those of the cell. *)
Theorem inc_dec_memory_round_trip (s : Machine) (address : Z) :
  let v := eval (Memory.read address) s in
  0 <= v < 256 ->
  let s1 := exec (CPU.INC address ;; CPU.DEC address) s in
  let s2 := exec (CPU.DEC address ;; CPU.INC address) s in
  (forall i, MemoryObj.data (mem s1) i = MemoryObj.data (mem s) i) /\
  (forall i, MemoryObj.data (mem s2) i = MemoryObj.data (mem s) i) /\
  cpu s1 = cpu (exec (CPU.setZN v) s) /\
  cpu s2 = cpu (exec (CPU.setZN v) s).
Proof.
  destruct s as [[d pm] [a x y pc sp [fb fc fd fi fn fo fz]] p].
  cbv zeta. rewrite eval_read. cbn [mem MemoryObj.data]. intros Hv.
  unfold CPU.INC, CPU.DEC. mstep.
  unfold Uint8Array.set. rewrite !Z.eqb_refl, !land_land_FF.
  rewrite byte_inc_dec, sp_dec_inc by assumption.
  repeat split; intros i;
    destruct (Z.eqb_spec i (bus_index address)) as [-> | _]; reflexivity.
Qed.

Lemma inc_dec_memory_round_trip_witness :
  MemoryObj.data (mem (exec (CPU.INC 0x10 ;; CPU.DEC 0x10) power_on)) 0x10
  = MemoryObj.data (mem power_on) 0x10.
Proof.
  destruct (inc_dec_memory_round_trip power_on 0x10) as (H & _);
    [change (0 <= 0 < 256); lia | exact (H 0x10)].
Defined.

(** ** Rotates and shifts *)

(** Settles an equation on a byte [v] by checking it on the 256 bytes. *)
Ltac by_bytes v Hv :=
  first [apply Z.eqb_eq | apply eqb_prop];
  match goal with
  | |- ?b = true =>
      match eval pattern v in b with
      | ?f _ => refine (byte_forallb f _ v Hv); vm_compute; reflexivity
      end
  end.

Lemma rol_ror_acc (c : bool) (a : Z) :
  0 <= a < 256 ->
  Z.lor (Z.shiftr (Z.land (Z.lor (Z.shiftl a 1) (if c then 1 else 0)) 0xFF) 1)
        (if nonzero (Z.land a 0x80) then 0x80 else 0) = a.
Proof. intros Ha. destruct c; by_bytes a Ha. Qed.

Lemma rol_ror_carry (c : bool) (a : Z) :
  0 <= a < 256 ->
  nonzero (Z.land (Z.land (Z.lor (Z.shiftl a 1) (if c then 1 else 0)) 0xFF)
                  0x01) = c.
Proof. intros Ha. destruct c; by_bytes a Ha. Qed.

Lemma ror_rol_acc (c : bool) (a : Z) :
  0 <= a < 256 ->
  Z.land (Z.lor (Z.shiftl (Z.lor (Z.shiftr a 1) (if c then 0x80 else 0)) 1)
                (if nonzero (Z.land a 0x01) then 1 else 0)) 0xFF = a.
Proof. intros Ha. destruct c; by_bytes a Ha. Qed.

Lemma ror_byte (c : bool) (a : Z) :
  0 <= a < 256 ->
  0 <= Z.lor (Z.shiftr a 1) (if c then 0x80 else 0) < 256.
Proof.
  intros Ha.
  assert (H : (0 <=? Z.lor (Z.shiftr a 1) (if c then 0x80 else 0))
              && (Z.lor (Z.shiftr a 1) (if c then 0x80 else 0) <? 256) = true).
  { destruct c;
      match goal with
      | |- ?b = true =>
          match eval pattern a in b with
          | ?f _ => refine (byte_forallb f _ a Ha); vm_compute; reflexivity
          end
      end. }
  apply andb_true_iff in H. destruct H as [H1 H2].
  apply Z.leb_le in H1. apply Z.ltb_lt in H2. lia.
Qed.

Lemma ror_rol_carry (c : bool) (a : Z) :
  0 <= a < 256 ->
  nonzero (Z.land (Z.lor (Z.shiftr a 1) (if c then 0x80 else 0)) 0x80) = c.
Proof. intros Ha. destruct c; by_bytes a Ha. Qed.

(** X12. [ROL_A] and [ROR_A] rotate the nine bits made of the carry and a
    byte in the accumulator in opposite directions: one after the other, in
    either order, gives back the accumulator and the carry, with Z and N
    those of the accumulator.  The same holds for [ROL] and [ROR] on a cell
    of memory that holds a byte: every cell and the carry are as before. *)
Theorem rotate_round_trip (s : Machine) (address : Z) :
  let a := CPUObj.A (cpu s) in
  let v := eval (Memory.read address) s in
  0 <= a < 256 -> 0 <= v < 256 ->
  exec (CPU.ROL_A ;; CPU.ROR_A) s = exec (CPU.setZN a) s /\
  exec (CPU.ROR_A ;; CPU.ROL_A) s = exec (CPU.setZN a) s /\
  (let s' := exec (CPU.ROL address ;; CPU.ROR address) s in
   (forall i, MemoryObj.data (mem s') i = MemoryObj.data (mem s) i) /\
   cpu s' = cpu (exec (CPU.setZN v) s)) /\
  (let s' := exec (CPU.ROR address ;; CPU.ROL address) s in
   (forall i, MemoryObj.data (mem s') i = MemoryObj.data (mem s) i) /\
   cpu s' = cpu (exec (CPU.setZN v) s)).
Proof.
  destruct s as [[d pm] [a x y pc sp [fb fc fd fi fn fo fz]] p].
  cbv zeta. rewrite eval_read. cbn [cpu mem CPUObj.A MemoryObj.data].
  intros Ha Hv.
  unfold CPU.ROL_A, CPU.ROR_A, CPU.ROL, CPU.ROR. mstep.
  unfold Uint8Array.set. rewrite !Z.eqb_refl, !land_land_FF.
  rewrite ?(land_FF _ (ror_byte fc (d (bus_index address)) Hv)).
  rewrite !rol_ror_acc, !rol_ror_carry, !ror_rol_acc, !ror_rol_carry
    by assumption.
  rewrite ?(land_FF _ Hv).
  repeat split; intros i;
    destruct (Z.eqb_spec i (bus_index address)) as [-> | _]; reflexivity.
Qed.

Lemma rotate_round_trip_witness :
  let s := exec (CPU.setA 0x81 ;; CPU.SEC) power_on in
  exec (CPU.ROL_A ;; CPU.ROR_A) s = exec (CPU.setZN 0x81) s.
Proof.
  intros s.
  destruct (rotate_round_trip s 0x10 ltac:(cbn; lia)
              ltac:(change (0 <= 0 < 256); lia)) as (H & _).
  exact H.
Defined.

Lemma asl_carry (a : Z) :
  0 <= a < 256 -> nonzero (Z.land a 0x80) = (128 <=? a).
Proof. intros Ha. by_bytes a Ha. Qed.

Lemma lsr_carry (a : Z) : nonzero (Z.land a 0x01) = Z.odd a.
Proof.
  change 0x01 with (Z.ones 1). rewrite Z.land_ones by lia.
  change (2 ^ 1) with 2. rewrite Zmod_odd. unfold nonzero.
  now destruct (Z.odd a).
Qed.

(** X13. On a byte in the accumulator [ASL_A] doubles and [LSR_A] halves,
    the bit that falls off going to the carry: after [ASL_A], twice the old
    value is the new one plus 256 if the carry is set; after [LSR_A], the old
    value is twice the new one plus the carry; [LSR_A] clears N. *)
Theorem shift_accumulator_arithmetic (s : Machine) :
  let a := CPUObj.A (cpu s) in
  0 <= a < 256 ->
  let l := cpu (exec CPU.ASL_A s) in
  let r := cpu (exec CPU.LSR_A s) in
  (CPUObj.A l = (2 * a) mod 256 /\
   2 * a = CPUObj.A l
           + (if FlagsObj.CarryFlag (CPUObj.Flags l) then 256 else 0) /\
   FlagsObj.ZeroFlag (CPUObj.Flags l) = (CPUObj.A l =? 0) /\
   FlagsObj.NegativeFlag (CPUObj.Flags l) = Z.testbit (CPUObj.A l) 7) /\
  (CPUObj.A r = a / 2 /\
   a = 2 * CPUObj.A r
       + (if FlagsObj.CarryFlag (CPUObj.Flags r) then 1 else 0) /\
   FlagsObj.ZeroFlag (CPUObj.Flags r) = (CPUObj.A r =? 0) /\
   FlagsObj.NegativeFlag (CPUObj.Flags r) = false).
Proof.
  destruct s as [mm [a x y pc sp [fb fc fd fi fn fo fz]] p].
  cbv zeta. cbn [cpu CPUObj.A]. intros Ha.
  unfold CPU.ASL_A, CPU.LSR_A. mrun.
  rewrite asl_carry, lsr_carry, nonzero_land_0x80, land_FF_mod by assumption.
  rewrite Z.shiftl_mul_pow2, Z.shiftr_div_pow2 by lia.
  change (2 ^ 1) with 2. rewrite (Z.mul_comm a 2).
  repeat split.
  - destruct (Z.leb_spec 128 a); Z.div_mod_to_equations; lia.
  - rewrite (Zodd_mod a). destruct (Z.eqb_spec (a mod 2) 1);
      Z.div_mod_to_equations; lia.
Qed.

Lemma shift_accumulator_arithmetic_witness :
  CPUObj.A (cpu (exec CPU.ASL_A (exec (CPU.setA 0xC1) power_on)))
  = (2 * 0xC1) mod 256.
Proof.
  destruct (shift_accumulator_arithmetic (exec (CPU.setA 0xC1) power_on)
              ltac:(cbn; lia)) as ((H & _) & _).
  exact H.
Defined.

(** ** Subtracting and adding back *)

(** X14. With the carry set [SBC] subtracts and with the carry clear [ADC]
    adds, both modulo 256, and each undoes the other: after
    [SEC; SBC m; CLC; ADC m] and after [CLC; ADC m; SEC; SBC m] the
    accumulator is what it was.  [SEC; SBC m] leaves the carry set exactly
    when no borrow was needed, [CLC; ADC m] exactly when the sum passed
    $FF. *)
Theorem subtract_and_add_back (s : Machine) (m : Z) :
  let a := CPUObj.A (cpu s) in
  0 <= a < 256 -> 0 <= m < 256 ->
  let sub := cpu (exec (CPU.SEC ;; CPU.SBC m) s) in
  let add := cpu (exec (CPU.CLC ;; CPU.ADC m) s) in
  CPUObj.A sub = (a - m) mod 256 /\
  FlagsObj.CarryFlag (CPUObj.Flags sub) = (m <=? a) /\
  CPUObj.A add = (a + m) mod 256 /\
  FlagsObj.CarryFlag (CPUObj.Flags add) = (255 <? a + m) /\
  CPUObj.A (cpu (exec (CPU.SEC ;; CPU.SBC m ;; CPU.CLC ;; CPU.ADC m) s)) = a /\
  CPUObj.A (cpu (exec (CPU.CLC ;; CPU.ADC m ;; CPU.SEC ;; CPU.SBC m) s)) = a.
Proof.
  destruct s as [mm [a x y pc sp [fb fc fd fi fn fo fz]] p].
  cbv zeta. cbn [cpu CPUObj.A]. intros Ha Hm.
  unfold CPU.SEC, CPU.CLC, CPU.SBC, CPU.ADC. mrun.
  rewrite !land_FF_mod, !Z.sub_0_r, !Z.add_0_r.
  rewrite Z.geb_leb, Z.gtb_ltb.
  repeat split.
  - destruct (Z.leb_spec 0 (a - m)), (Z.leb_spec m a); reflexivity || lia.
  - rewrite Z.add_mod_idemp_l by lia.
    replace (a - m + m) with a by lia. now apply Z.mod_small.
  - rewrite Zminus_mod_idemp_l.
    replace (a + m - m) with a by lia. now apply Z.mod_small.
Qed.

Lemma subtract_and_add_back_witness :
  CPUObj.A (cpu (exec (CPU.SEC ;; CPU.SBC 0x30 ;; CPU.CLC ;; CPU.ADC 0x30)
                      (exec (CPU.setA 0x10) power_on))) = 0x10.
Proof.
  destruct (subtract_and_add_back (exec (CPU.setA 0x10) power_on) 0x30
              ltac:(cbn; lia) ltac:(lia)) as (_ & _ & _ & _ & H & _).
  exact H.
Defined.

(** ** Decoding *)

Lemma exec_decode (s : Machine) :
  exec CPU.decodeAndExecute s =
  exec (CPU.switch (eval (Memory.read (CPUObj.PC (cpu s))) s))
       (exec (CPU.setPC (CPUObj.PC (cpu s) + 1)) s).
Proof. unfold exec at 1. now rewrite decodeAndExecute_fetch. Qed.




(** X16. A branch opcode reads one offset byte and either falls through to
    the next instruction, two bytes on, or jumps from there by the offset
    read as a signed byte, 128 back to 127 forward; the test is the one of
    [branch_cases] (the case of $50 calls [BVS], as that of $70 does, so both
    branch when V is set).  Nothing but [PC] changes. *)
Theorem branch_moves_PC (s : Machine) (op : Z) (cond : FlagsObj.t -> bool) :
  In (op, cond) branch_cases ->
  eval (Memory.read (CPUObj.PC (cpu s))) s = op ->
  bytes_ok s ->
  let pc := CPUObj.PC (cpu s) in
  let offset := eval (Memory.read (pc + 1)) s in
  exec CPU.decodeAndExecute s =
    exec (CPU.setPC (if cond (CPUObj.Flags (cpu s))
                     then pc + 2 + signed_offset offset else pc + 2)) s /\
  -128 <= signed_offset offset <= 127.
Proof.
  intros Hin Hop Hb pc offset. split.
  - rewrite exec_decode, Hop. subst pc offset.
    rewrite eval_read. clear Hop Hb.
    destruct s as [[d pm] [a x y pc sp [fb fc fd fi fn fo fz]] p].
    cbn [cpu mem CPUObj.PC CPUObj.Flags MemoryObj.data].
    cbn [In branch_cases] in Hin.
    repeat (destruct Hin as [Hin | Hin];
      [ injection Hin as <- <-;
        cbv beta iota delta [CPU.switch];
        unfold CPU.Relative, CPU.BCC, CPU.BCS, CPU.BEQ, CPU.BNE, CPU.BMI,
          CPU.BPL, CPU.BVS; mstep;
        unfold signed_offset;
        cbn [FlagsObj.CarryFlag FlagsObj.ZeroFlag FlagsObj.NegativeFlag
             FlagsObj.OverflowFlag];
        replace (pc + 1 + 1) with (pc + 2) by lia;
        destruct (d (bus_index (pc + 1)) <? 128);
        match goal with |- context [if ?b then _ else _] => destruct b end;
        first [reflexivity | do 2 f_equal; lia]
      | ]).
    contradiction.
  - subst offset. rewrite eval_read. unfold signed_offset.
    specialize (Hb (bus_index (pc + 1))).
    destruct (Z.ltb_spec (MemoryObj.data (mem s) (bus_index (pc + 1))) 0x80);
      lia.
Qed.

Lemma branch_moves_PC_witness :
  let s := exec (Memory.write 0x8000 0xD0 ;; Memory.write 0x8001 0xFE)
                power_on in
  exec CPU.decodeAndExecute s = exec (CPU.setPC 0x8000) s.
Proof.
  intros s.
  assert (Hb : bytes_ok s).
  { unfold s. rewrite exec_bind.
    apply write_keeps_bytes, write_keeps_bytes, power_on_bytes. }
  destruct (branch_moves_PC s 0xD0
              (fun f => negb (FlagsObj.ZeroFlag f))
              ltac:(cbn; tauto) ltac:(reflexivity) Hb) as (H & _).
  exact H.
Defined.

(** ** Loads and stores *)

(** X17. [LDA], [LDX] and [LDY] hand their operand to the register as it
    comes from the addressing mode.  With an immediate operand that is the
    byte after the opcode.  With an absolute operand it is the 16-bit address
    made of the two bytes after the opcode: the register receives the address
    itself and the memory at that address is not read. *)
Theorem load_takes_operand (s : Machine) (op : Z) (load : Z -> M unit) :
  eval (Memory.read (CPUObj.PC (cpu s))) s = op ->
  In (op, load) (load_immediate_cases ++ load_absolute_cases) ->
  let pc := CPUObj.PC (cpu s) in
  let lo := eval (Memory.read (pc + 1)) s in
  let hi := eval (Memory.read (pc + 2)) s in
  (In (op, load) load_immediate_cases ->
   exec CPU.decodeAndExecute s = exec (load lo) (exec (CPU.setPC (pc + 2)) s)) /\
  (In (op, load) load_absolute_cases ->
   exec CPU.decodeAndExecute s =
   exec (load (Z.lor (Z.shiftl hi 8) lo)) (exec (CPU.setPC (pc + 3)) s)) /\
  (forall v t,
     CPUObj.A (cpu (exec (CPU.LDA v) t)) = v /\
     CPUObj.X (cpu (exec (CPU.LDX v) t)) = v /\
     CPUObj.Y (cpu (exec (CPU.LDY v) t)) = v).
Proof.
  intros Hop _ pc lo hi. subst pc lo hi.
  rewrite exec_decode, Hop, !eval_read. clear Hop.
  destruct s as [[d pm] [a x y pc sp [fb fc fd fi fn fo fz]] p].
  cbn [cpu mem CPUObj.PC MemoryObj.data].
  split; [| split].
  - intros Hin. cbn [In load_immediate_cases] in Hin.
    repeat (destruct Hin as [Hin | Hin];
      [ injection Hin as <- <-; cbv beta iota delta [CPU.switch];
        unfold CPU.Immediate, CPU.LDA, CPU.LDX, CPU.LDY; mstep;
        replace (pc + 1 + 1) with (pc + 2) by lia; reflexivity | ]).
    contradiction.
  - intros Hin. cbn [In load_absolute_cases] in Hin.
    repeat (destruct Hin as [Hin | Hin];
      [ injection Hin as <- <-; cbv beta iota delta [CPU.switch];
        unfold CPU.Absolute, CPU.LDA, CPU.LDX, CPU.LDY; mstep;
        replace (pc + 1 + 1 + 1) with (pc + 3) by lia;
        replace (pc + 1 + 1) with (pc + 2) by lia; reflexivity | ]).
    contradiction.
  - intros v t. repeat split.
Qed.

Lemma load_takes_operand_witness :
  let s := exec (Memory.write 0x8000 0xAD ;; Memory.write 0x8001 0x34 ;;
                 Memory.write 0x8002 0x12 ;; Memory.write 0x1234 0x77)
                power_on in
  CPUObj.A (cpu (exec CPU.decodeAndExecute s)) = 0x1234.
Proof.
  intros s.
  destruct (load_takes_operand s 0xAD CPU.LDA ltac:(reflexivity)
              ltac:(cbn; tauto)) as (_ & H & _).
  rewrite (H ltac:(cbn; tauto)). reflexivity.
Defined.

(** X18. [STA], [STX] and [STY] with an absolute operand store the low 8
    bits of their register in the cell the operand addresses: a bus read of
    that address returns them afterwards, every cell that the address does
    not select is as before, [PC] is three bytes on, and no register or flag
    has changed. *)
Theorem store_absolute_writes_register
  (s : Machine) (op : Z) (reg : CPUObj.t -> Z) :
  eval (Memory.read (CPUObj.PC (cpu s))) s = op ->
  In (op, reg) store_absolute_cases ->
  let pc := CPUObj.PC (cpu s) in
  let address := Z.lor (Z.shiftl (eval (Memory.read (pc + 2)) s) 8)
                       (eval (Memory.read (pc + 1)) s) in
  let s' := exec CPU.decodeAndExecute s in
  eval (Memory.read address) s' = Z.land (reg (cpu s)) 0xFF /\
  (forall i, i <> bus_index address ->
     MemoryObj.data (mem s') i = MemoryObj.data (mem s) i) /\
  cpu s' = cpu (exec (CPU.setPC (pc + 3)) s) /\
  MemoryObj.ppuMemory (mem s') = MemoryObj.ppuMemory (mem s) /\
  ppu s' = ppu s.
Proof.
  intros Hop Hin pc address s'. subst pc address s'.
  rewrite exec_decode, Hop, !eval_read. clear Hop.
  destruct s as [[d pm] [a x y pc sp [fb fc fd fi fn fo fz]] p].
  cbn [cpu mem CPUObj.PC MemoryObj.data].
  cbn [In store_absolute_cases] in Hin.
  repeat (destruct Hin as [Hin | Hin];
    [ injection Hin as <- <-; cbv beta iota delta [CPU.switch];
      unfold CPU.Absolute, CPU.STA, CPU.STX, CPU.STY; mstep;
      replace (pc + 1 + 1 + 1) with (pc + 3) by lia;
      replace (pc + 1 + 1) with (pc + 2) by lia;
      unfold Uint8Array.set; rewrite Z.eqb_refl, land_land_FF;
      repeat split; intros i Hi;
      destruct (Z.eqb_spec i
                  (bus_index (Z.lor (Z.shiftl (d (bus_index (pc + 2))) 8)
                                    (d (bus_index (pc + 1))))));
      [contradiction | reflexivity]
    | ]).
  contradiction.
Qed.

Lemma store_absolute_writes_register_witness :
  let s := exec (Memory.write 0x8000 0x8D ;; Memory.write 0x8001 0x00 ;;
                 Memory.write 0x8002 0x03 ;; CPU.setA 0x5A) power_on in
  eval (Memory.read 0x0300) (exec CPU.decodeAndExecute s) = 0x5A.
Proof.
  intros s.
  destruct (store_absolute_writes_register s 0x8D CPUObj.A
              ltac:(reflexivity) ltac:(cbn; tauto)) as (H & _).
  exact H.
Defined.

(** ** The CPU and the PPU object *)

Lemma blind_ret {R} (r : R) : ppu_blind (ret r).
Proof. intros s p. reflexivity. Qed.

Lemma blind_gets {R} (f : Machine -> R) :
  (forall s p, f (with_ppu p s) = f s) -> ppu_blind (gets f).
Proof. intros Hf s p. unfold gets. cbn [fst snd]. now rewrite Hf. Qed.

Lemma blind_bind {R S} (m : M R) (k : R -> M S) :
  ppu_blind m -> (forall r, ppu_blind (k r)) -> ppu_blind (bind m k).
Proof.
  intros Hm Hk s p. unfold bind. rewrite Hm.
  destruct (m s) as [r s1]. cbn [fst snd]. apply Hk.
Qed.

Lemma blind_cpu_upd (f : CPUObj.t -> CPUObj.t) : ppu_blind (CPU.upd f).
Proof. intros s p. reflexivity. Qed.

Lemma blind_read (a : Z) : ppu_blind (Memory.read a).
Proof. intros s p. now rewrite !read_index. Qed.

Lemma blind_write (a v : Z) : ppu_blind (Memory.write a v).
Proof. intros s p. now rewrite !write_index. Qed.

Lemma upd_keeps_ppuMemory (pm : Uint8Array.t) (f : CPUObj.t -> CPUObj.t) :
  preserves (ppuMemory_is pm) (CPU.upd f).
Proof. intros s H. exact H. Qed.

Lemma write_keeps_ppuMemory (pm : Uint8Array.t) (a v : Z) :
  preserves (ppuMemory_is pm) (Memory.write a v).
Proof. intros s H. unfold exec. rewrite write_index. exact H. Qed.

Ltac blind :=
  repeat lazymatch goal with
    | |- ppu_blind (bind _ _) => apply blind_bind; [| intro]
    | |- ppu_blind (ret _) => apply blind_ret
    | |- ppu_blind (gets _) => apply blind_gets; intros; reflexivity
    | |- ppu_blind (CPU.upd _) => apply blind_cpu_upd
    | |- ppu_blind (Memory.read _) => apply blind_read
    | |- ppu_blind (Memory.write _ _) => apply blind_write
    | |- ppu_blind (if ?b then _ else _) => destruct b
    | |- preserves _ (bind _ _) => apply preserves_bind; [| intro]
    | |- preserves _ (ret _) => apply preserves_ret
    | |- preserves _ (gets _) => apply preserves_gets
    | |- preserves _ (Memory.read _) => apply preserves_read
    | |- preserves (ppuMemory_is _) (CPU.upd _) => apply upd_keeps_ppuMemory
    | |- preserves (ppuMemory_is _) (Memory.write _ _) =>
        apply write_keeps_ppuMemory
    | |- preserves _ (if ?b then _ else _) => destruct b
    | |- _ => progress autounfold with cpu
    end.

Lemma switch_blind (opcode : Z) : ppu_blind (CPU.switch opcode).
Proof.
  unfold CPU.switch.
  repeat match goal with
         | |- context [match ?p with _ => _ end] => is_var p; destruct p
         end.
  all: blind.
Qed.

Lemma switch_keeps_ppuMemory (pm : Uint8Array.t) (opcode : Z) :
  preserves (ppuMemory_is pm) (CPU.switch opcode).
Proof.
  unfold CPU.switch.
  repeat match goal with
         | |- context [match ?p with _ => _ end] => is_var p; destruct p
         end.
  all: blind.
Qed.

Lemma decodeAndExecute_blind : ppu_blind CPU.decodeAndExecute.
Proof. unfold CPU.decodeAndExecute. blind. apply switch_blind. Qed.

Lemma with_ppu_same (s : Machine) : with_ppu (ppu s) s = s.
Proof. now destruct s. Qed.

Lemma blind_keeps_ppu {R} (m : M R) (s : Machine) :
  ppu_blind m -> ppu (exec m s) = ppu s.
Proof.
  intros H. specialize (H s (ppu s)). rewrite with_ppu_same in H.
  unfold exec. rewrite H. reflexivity.
Qed.

Lemma blind_exec {R} (m : M R) (s : Machine) (p : PPUObj.t) :
  ppu_blind m -> exec m (with_ppu p s) = with_ppu p (exec m s).
Proof. intros H. unfold exec. now rewrite H. Qed.

(** X19. No instruction reaches the PPU: whatever the opcode and the
    machine, the PPU registers, the scanline counter and the PPU memory are
    after [decodeAndExecute] what they were before, stores to $2000-$3FFF and
    $4014 included; and the instruction does to the CPU and to memory what
    it would have done with any other PPU state. *)
Theorem instruction_leaves_PPU_alone (s : Machine) (p : PPUObj.t) :
  ppu (exec CPU.decodeAndExecute s) = ppu s /\
  MemoryObj.ppuMemory (mem (exec CPU.decodeAndExecute s))
    = MemoryObj.ppuMemory (mem s) /\
  exec CPU.decodeAndExecute (with_ppu p s)
    = with_ppu p (exec CPU.decodeAndExecute s).
Proof.
  split; [| split].
  - apply blind_keeps_ppu, decodeAndExecute_blind.
  - assert (H : preserves (ppuMemory_is (MemoryObj.ppuMemory (mem s)))
                  CPU.decodeAndExecute).
    { unfold CPU.decodeAndExecute. blind. apply switch_keeps_ppuMemory. }
    apply H. reflexivity.
  - apply blind_exec, decodeAndExecute_blind.
Qed.

(** ** One frame *)







(** ** Which instructions store to memory *)

Lemma upd_keeps_mem (m : MemoryObj.t) (f : CPUObj.t -> CPUObj.t) :
  preserves (mem_is m) (CPU.upd f).
Proof. intros s H. exact H. Qed.

(** Goes through a computation that makes no bus write. *)
Ltac still :=
  repeat lazymatch goal with
    | |- preserves _ (bind _ _) => apply preserves_bind; [| intro]
    | |- preserves _ (ret _) => apply preserves_ret
    | |- preserves _ (gets _) => apply preserves_gets
    | |- preserves _ (Memory.read _) => apply preserves_read
    | |- preserves (mem_is _) (CPU.upd _) => apply upd_keeps_mem
    | |- preserves _ (Memory.write _ _) => fail
    | |- preserves _ (if ?b then _ else _) => destruct b
    | |- _ => progress autounfold with cpu
    end.

Lemma switch_keeps_mem (m : MemoryObj.t) (opcode : Z) :
  existsb (Z.eqb opcode) storing_opcodes = false ->
  preserves (mem_is m) (CPU.switch opcode).
Proof.
  intros Hb. unfold CPU.switch.
  repeat match goal with
         | |- context [match ?p with _ => _ end] => is_var p; destruct p
         end.
  all: first [ solve [still] | exfalso; vm_compute in Hb; discriminate Hb ].
Qed.

(** X21. An instruction whose opcode is not one of the 49 storing opcodes
    leaves both memory arrays as they were: loads, compares, arithmetic,
    branches, jumps, transfers, pulls and unknown bytes never store. *)
Theorem other_opcodes_keep_memory (s : Machine) :
  ~ In (eval (Memory.read (CPUObj.PC (cpu s))) s) storing_opcodes ->
  mem (exec CPU.decodeAndExecute s) = mem s.
Proof.
  intros H. rewrite exec_decode.
  set (op := eval (Memory.read (CPUObj.PC (cpu s))) s) in *.
  assert (Hb : existsb (Z.eqb op) storing_opcodes = false).
  { destruct (existsb (Z.eqb op) storing_opcodes) eqn:E; [| reflexivity].
    exfalso. apply H. apply existsb_exists in E.
    destruct E as (k & Hin & Hk). apply Z.eqb_eq in Hk. now subst k. }
  apply (switch_keeps_mem (mem s) op Hb). reflexivity.
Qed.

Lemma other_opcodes_keep_memory_witness :
  let s := exec (Memory.write 0x8000 0xAD) power_on in
  mem (exec CPU.decodeAndExecute s) = mem s.
Proof.
  cbv zeta. apply other_opcodes_keep_memory.
  vm_compute. intuition discriminate.
Defined.

(** X22. Each of the 49 storing opcodes does store: on the machine with the
    opcode at [PC], 1 in every other byte and 0 in the registers, a byte of
    memory differs after the instruction.  Among them are the eight [ORA]
    opcodes, the immediate one included, whose cases shift a byte of memory
    to the right. *)
Theorem storing_opcodes_store (opcode : Z) :
  In opcode storing_opcodes ->
  let s := probe_machine opcode in
  eval (Memory.read (CPUObj.PC (cpu s))) s = opcode /\
  exists a : Z,
    MemoryObj.data (mem (exec CPU.decodeAndExecute s)) a
    <> MemoryObj.data (mem s) a.
Proof.
  intros H. cbv zeta. cbn [In storing_opcodes] in H.
  repeat (destruct H as [H | H];
    [ subst opcode; split; [reflexivity |];
      first [ exists 0x0001; vm_compute; intro E; discriminate E
            | exists 0x0101; vm_compute; intro E; discriminate E
            | exists 0x01FD; vm_compute; intro E; discriminate E ] | ]).
  contradiction.
Qed.

Lemma storing_opcodes_store_witness :
  eval (Memory.read 0x8000) (probe_machine 0x09) = 0x09 /\
  exists a : Z,
    MemoryObj.data (mem (exec CPU.decodeAndExecute (probe_machine 0x09))) a
    <> MemoryObj.data (mem (probe_machine 0x09)) a.
Proof.
  apply (storing_opcodes_store 0x09). cbn. tauto.
Defined.

(** ** The PPU registers *)

Lemma readRegister_other (a : Z) :
  a <> 0x2002 -> a <> 0x2004 -> a <> 0x2007 -> PPU.readRegister a = ret 0.
Proof.
  intros H2 H4 H7. unfold PPU.readRegister.
  repeat match goal with
         | |- context [match ?p with _ => _ end] => is_var p; destruct p
         end;
    first [reflexivity | congruence].
Qed.

Lemma writeRegister_other (a v : Z) :
  a <> 0x2000 -> a <> 0x2001 -> a <> 0x2003 -> a <> 0x2004 ->
  a <> 0x2005 -> a <> 0x2006 -> a <> 0x2007 ->
  PPU.writeRegister a v = ret tt.
Proof.
  intros H0 H1 H3 H4 H5 H6 H7. unfold PPU.writeRegister.
  repeat match goal with
         | |- context [match ?p with _ => _ end] => is_var p; destruct p
         end;
    first [reflexivity | congruence].
Qed.

(** Splits on the register a write goes to; the last case is an address
    that latches nothing. *)
Ltac on_register a :=
  destruct (Z.eq_dec a 0x2000) as [-> | ?];
  [| destruct (Z.eq_dec a 0x2001) as [-> | ?];
  [| destruct (Z.eq_dec a 0x2003) as [-> | ?];
  [| destruct (Z.eq_dec a 0x2004) as [-> | ?];
  [| destruct (Z.eq_dec a 0x2005) as [-> | ?];
  [| destruct (Z.eq_dec a 0x2006) as [-> | ?];
  [| destruct (Z.eq_dec a 0x2007) as [-> | ?];
  [| rewrite (writeRegister_other a) by assumption ]]]]]]].

(** X23. Of the PPU registers only OAMDATA ($2004) and PPUDATA ($2007) read
    back what was written.  PPUSTATUS is read-only: no write changes what a
    read of $2002 returns.  The other registers latch a write but read as 0,
    and a write to one address never changes what another address reads.
    Reads change nothing, and writes leave the scanline counter, the CPU and
    memory alone. *)
Theorem ppu_register_read_after_write (s : Machine) (a a' v : Z) :
  let s' := exec (PPU.writeRegister a v) s in
  eval (PPU.readRegister a') s' =
    (if (a' =? a) && ((a =? 0x2004) || (a =? 0x2007)) then v
     else eval (PPU.readRegister a') s) /\
  (a' <> 0x2002 -> a' <> 0x2004 -> a' <> 0x2007 ->
   eval (PPU.readRegister a') s' = 0) /\
  exec (PPU.readRegister a') s' = s' /\
  PPUObj.status (ppu s') = PPUObj.status (ppu s) /\
  PPUObj.currentScanline (ppu s') = PPUObj.currentScanline (ppu s) /\
  mem s' = mem s /\ cpu s' = cpu s.
Proof.
  cbv zeta.
  assert (Hr : forall t, exec (PPU.readRegister a') t = t).
  { intros t.
    destruct (Z.eq_dec a' 0x2002) as [-> |]; [reflexivity |].
    destruct (Z.eq_dec a' 0x2004) as [-> |]; [reflexivity |].
    destruct (Z.eq_dec a' 0x2007) as [-> |]; [reflexivity |].
    now rewrite readRegister_other. }
  split; [| split; [| split; [apply Hr |]]].
  - destruct (Z.eq_dec a' 0x2002) as [-> | N2].
    { replace ((0x2002 =? a) && ((a =? 0x2004) || (a =? 0x2007)))
        with false
        by (destruct (Z.eqb_spec 0x2002 a) as [<- |]; reflexivity).
      on_register a; reflexivity. }
    destruct (Z.eq_dec a' 0x2004) as [-> | N4].
    { destruct (Z.eqb_spec 0x2004 a) as [<- | N]; [reflexivity |].
      cbn [andb]. on_register a; first [reflexivity | congruence]. }
    destruct (Z.eq_dec a' 0x2007) as [-> | N7].
    { destruct (Z.eqb_spec 0x2007 a) as [<- | N]; [reflexivity |].
      cbn [andb]. on_register a; first [reflexivity | congruence]. }
    rewrite (readRegister_other a') by assumption.
    change (eval (ret 0) ?t) with 0.
    destruct (Z.eqb_spec a' a) as [<- | N]; [| reflexivity].
    rewrite (proj2 (Z.eqb_neq a' 0x2004) N4), (proj2 (Z.eqb_neq a' 0x2007) N7).
    reflexivity.
  - intros N2 N4 N7. now rewrite (readRegister_other a') by assumption.
  - on_register a; repeat split.
Qed.

(** ** Addressing modes *)

Lemma word_range (hi lo : Z) :
  0 <= hi < 256 -> 0 <= lo < 256 ->
  0 <= Z.lor (Z.shiftl hi 8) lo <= 0xFFFF.
Proof.
  intros Hh Hl.
  assert (Hz : Z.land (Z.shiftl hi 8) lo = 0).
  { apply Z.bits_inj'. intros n Hn. rewrite Z.land_spec, Z.bits_0.
    destruct (Z.ltb_spec n 8).
    - now rewrite Z.shiftl_spec_low.
    - rewrite <- (land_FF lo Hl), Z.land_spec, testbit_FF by lia.
      destruct (Z.ltb_spec n 8); [lia |]. now rewrite !andb_false_r. }
  rewrite <- Z.lxor_lor, <- Z.add_nocarry_lxor by assumption.
  rewrite Z.shiftl_mul_pow2 by lia. lia.
Qed.

Lemma land_FFFF_range (v : Z) : 0 <= Z.land v 0xFFFF <= 0xFFFF.
Proof.
  assert (E : Z.land v 0xFFFF = v mod 2 ^ 16)
    by (change 0xFFFF with (Z.ones 16); apply Z.land_ones; lia).
  rewrite E. pose proof (Z.mod_pos_bound v (2 ^ 16) ltac:(lia)). lia.
Qed.

(** X24. An addressing mode only moves [PC], past the one or two bytes it
    takes, and with bytes in memory its result is in range: the zero-page
    modes and the immediate mode return a byte, the indexed zero-page modes
    wrapping inside page zero, and the absolute and indirect modes return a
    16-bit address, the indexed ones wrapping at $FFFF. *)
Theorem addressing_mode_result (s : Machine) (mode : M Z) (n top : Z) :
  bytes_ok s ->
  In (mode, n, top) addressing_modes ->
  exec mode s = exec (CPU.setPC (CPUObj.PC (cpu s) + n)) s /\
  0 <= eval mode s <= top.
Proof.
  intros Hb Hin. unfold bytes_ok, Uint8Array.bytes in Hb.
  destruct s as [[d pm] [a x y pc sp f] p].
  cbn [mem MemoryObj.data] in Hb. cbn [cpu CPUObj.PC].
  cbn [In addressing_modes] in Hin.
  repeat (destruct Hin as [Hin | Hin];
    [ injection Hin as <- <- <-;
      unfold CPU.AbsoluteX, CPU.AbsoluteY, CPU.Immediate, CPU.IndX,
        CPU.IndY, CPU.Indirect, CPU.ZeroPage, CPU.ZeroPageX, CPU.ZeroPageY;
      unfold CPU.Absolute;
      mstep;
      (split;
       [ first [ reflexivity
               | replace (pc + 1 + 1) with (pc + 2) by lia; reflexivity ]
       | lazymatch goal with
         | |- 0 <= Z.lor _ _ <= _ => apply word_range; apply Hb
         | |- 0 <= Z.land ?v 0xFFFF <= _ => apply land_FFFF_range
         | |- 0 <= Z.land ?v 0xFF <= _ => pose proof (land_FF_range v); lia
         | |- 0 <= d ?i <= _ => pose proof (Hb i); lia
         end ]) | ]).
  contradiction.
Qed.

Lemma addressing_mode_result_witness :
  let s := exec (Memory.write 0x8000 0xF0 ;; CPU.setX 0x20) power_on in
  exec CPU.ZeroPageX s = exec (CPU.setPC (CPUObj.PC (cpu s) + 1)) s /\
  0 <= eval CPU.ZeroPageX s <= 0xFF.
Proof.
  cbv zeta. apply addressing_mode_result.
  - assert (H : preserves bytes_ok
                  (Memory.write 0x8000 0xF0 ;; CPU.setX 0x20)) by preserve.
    apply H, power_on_bytes.
  - cbn. tauto.
Defined.

(** ** A loaded ROM *)

Lemma bus_index_below (a : Z) :
  0 <= a < 0x8000 -> 0 <= bus_index a < 0x8000.
Proof.
  intros Ha.
  destruct (Z.lt_ge_cases a 0x2000).
  - rewrite bus_index_ram by lia.
    pose proof (Z.mod_pos_bound a 0x800 ltac:(lia)). lia.
  - destruct (Z.lt_ge_cases a 0x4000).
    + rewrite bus_index_ppu by lia.
      pose proof (Z.mod_pos_bound a 8 ltac:(lia)). lia.
    + rewrite bus_index_high by lia. lia.
Qed.

(** The machine [loadRom] leaves when the file has the magic number. *)
Lemma loadRom_result (romBuffer : list Z) (s : Machine) :
  has_magic romBuffer = true ->
  let s' := exec (loadRom romBuffer) s in
  cpu s' = CPUObj.mk 0x00 0x00 0x00 0x8000 0xFD (CPUObj.Flags (cpu s)) /\
  ppu s' = ppu s /\
  MemoryObj.ppuMemory (mem s') = MemoryObj.ppuMemory (mem s) /\
  forall a,
    MemoryObj.data (mem s') a =
    if (0x8000 <=? a)
       && (a <? 0x8000 + Z.min (prgRomSize romBuffer) 0x8000)
    then Z.land (toInt32 (romByte romBuffer (16 + (a - 0x8000)))) 0xFF
    else MemoryObj.data (mem s) a.
Proof.
  intros Hmagic. cbv zeta. rewrite loadRom_unfold, Hmagic, !exec_bind.
  change (exec (ret ?r) ?x) with x.
  set (n := Z.to_nat (prgRomSize romBuffer)).
  destruct (loadRom_loop_copies romBuffer n 16 0x8000 s ltac:(lia))
    as (Hc & Hp & Hm & Hd).
  set (s1 := exec (loadRom_loop romBuffer n 16 0x8000) s) in *.
  rewrite !exec_reset. cbn [cpu ppu mem].
  rewrite Hc, Hp, Hm. repeat split. intros a. rewrite Hd.
  assert (Hn : Z.of_nat n = Z.max 0 (prgRomSize romBuffer))
    by (subst n; lia).
  destruct (Z.leb_spec 0x8000 a),
    (Z.ltb_spec a (Z.min (0x8000 + Z.of_nat n) 0x10000)),
    (Z.ltb_spec a (0x8000 + Z.min (prgRomSize romBuffer) 0x8000));
    cbn [andb]; reflexivity || lia.
Qed.

(** X25. After [loadRom] the CPU sees the program: a bus read at
    [$8000 + i] returns byte [16 + i] of the file for each loaded byte, every
    other address reads as before the load (a single 16 KiB bank is not
    repeated at $C000, so the vectors at $FFFA-$FFFF do not come from the
    file), and the first instruction decoded is byte 16 of the file. *)
Theorem loaded_program_is_fetched (romBuffer : list Z) (s : Machine) :
  has_magic romBuffer = true ->
  let s' := exec (loadRom romBuffer) s in
  let size := Z.min (prgRomSize romBuffer) 0x8000 in
  (forall i, 0 <= i < size ->
     eval (Memory.read (0x8000 + i)) s'
     = Z.land (toInt32 (romByte romBuffer (16 + i))) 0xFF) /\
  (forall a, 0 <= a < 0x10000 -> a < 0x8000 \/ 0x8000 + size <= a ->
     eval (Memory.read a) s' = eval (Memory.read a) s) /\
  (0 < size ->
     exec CPU.decodeAndExecute s'
     = exec (CPU.switch (Z.land (toInt32 (romByte romBuffer 16)) 0xFF))
            (exec (CPU.setPC 0x8001) s')).
Proof.
  intros Hmagic. cbv zeta.
  destruct (loadRom_result romBuffer s Hmagic) as (Hc & _ & _ & Hd).
  cbv zeta in Hc, Hd.
  set (s' := exec (loadRom romBuffer) s) in *.
  assert (Hread : forall i, 0 <= i < Z.min (prgRomSize romBuffer) 0x8000 ->
            eval (Memory.read (0x8000 + i)) s'
            = Z.land (toInt32 (romByte romBuffer (16 + i))) 0xFF).
  { intros i Hi. rewrite eval_read, bus_index_high, Hd by lia.
    destruct (Z.leb_spec 0x8000 (0x8000 + i)); [| lia].
    destruct (Z.ltb_spec (0x8000 + i)
                (0x8000 + Z.min (prgRomSize romBuffer) 0x8000)); [| lia].
    cbn [andb]. do 3 f_equal. lia. }
  split; [exact Hread |]. split.
  - intros a Ha Hout. rewrite !eval_read, Hd.
    destruct (Z.lt_ge_cases a 0x8000) as [Hlow | Hhigh].
    + pose proof (bus_index_below a ltac:(lia)).
      destruct (Z.leb_spec 0x8000 (bus_index a)); [lia | reflexivity].
    + rewrite bus_index_high by lia.
      destruct (Z.ltb_spec a (0x8000 + Z.min (prgRomSize romBuffer) 0x8000));
        [lia |].
      now rewrite andb_false_r.
  - intros Hsize. rewrite exec_decode, Hc. cbn [CPUObj.PC].
    change 0x8000 with (0x8000 + 0) at 1.
    rewrite Hread by lia. reflexivity.
Qed.

Lemma loaded_program_is_fetched_witness :
  let s' := exec (loadRom short_rom) power_on in
  eval (Memory.read 0x8000) s' = 0xA9 /\
  eval (Memory.read 0x8001) s' = 0x05 /\
  eval (Memory.read 0xC000) s' = 0 /\
  CPUObj.A (cpu (exec CPU.decodeAndExecute s')) = 0x05.
Proof.
  cbv zeta.
  destruct (loaded_program_is_fetched short_rom power_on ltac:(reflexivity))
    as (Hread & Hout & Hstep).
  split; [exact (Hread 0 ltac:(vm_compute; split; congruence)) |].
  split; [exact (Hread 1 ltac:(vm_compute; split; congruence)) |].
  split; [exact (Hout 0xC000 ltac:(lia) ltac:(right; vm_compute; congruence)) |].
  rewrite (Hstep ltac:(reflexivity)). vm_compute. reflexivity.
Defined.

(** X26. Loading the same file a second time changes nothing: the CPU, the
    PPU and every byte of both memory arrays are as after the first load. *)
Theorem loadRom_twice (romBuffer : list Z) (s : Machine) :
  let s' := exec (loadRom romBuffer) s in
  let s'' := exec (loadRom romBuffer) s' in
  cpu s'' = cpu s' /\ ppu s'' = ppu s' /\
  MemoryObj.ppuMemory (mem s'') = MemoryObj.ppuMemory (mem s') /\
  forall a, MemoryObj.data (mem s'') a = MemoryObj.data (mem s') a.
Proof.
  cbv zeta. destruct (has_magic romBuffer) eqn:Hmagic.
  - destruct (loadRom_result romBuffer s Hmagic) as (Hc & Hp & Hm & Hd).
    cbv zeta in Hc, Hp, Hm, Hd.
    set (s' := exec (loadRom romBuffer) s) in *.
    destruct (loadRom_result romBuffer s' Hmagic) as (Hc' & Hp' & Hm' & Hd').
    cbv zeta in Hc', Hp', Hm', Hd'.
    rewrite Hc', Hp', Hm', Hc. repeat split.
    intros a. rewrite Hd', Hd.
    now destruct ((0x8000 <=? a)
                  && (a <? 0x8000 + Z.min (prgRomSize romBuffer) 0x8000)).
  - assert (E : forall t, exec (loadRom romBuffer) t = t)
      by (intros t; now rewrite loadRom_unfold, Hmagic).
    rewrite !E. repeat split.
Qed.

(** ** The rotate cases of the decoder *)




